(** * The [remove] command of the CLI (packages/cli/src/commands/remove.ts)

    A shallow embedding of [main], [readConfirmation] and the helpers they
    use, with the remote API, the terminal and the argument parser as
    collaborators, followed by the properties of the removal workflow.

    The command is asynchronous glue: it issues batches of requests with
    [Promise.all], awaits them, filters in-memory lists and prints.  It is
    modelled in a state-and-exception monad over
      - an abstract world [W] that the collaborators read and update, and
      - a trace of every request and every terminal action, in the order
        the command issues them.
    A request of a batch is issued when [Array.prototype.map] calls its
    callback, so the requests of one batch appear in the trace in list
    order, whether or not one of them is rejected later. *)

From Stdlib Require Import String Ascii DecimalString List Bool Arith Lia ZArith.
Import ListNotations.
Local Open Scope string_scope.
Local Open Scope list_scope.
Local Open Scope nat_scope.

(** ** Strings

    A model character is a UTF-16 code unit below 256; [string] is a
    sequence of them.  [trim] and [toLowerCase] are
    [String.prototype.trim] and [String.prototype.toLowerCase] on that
    range. *)

Module Js.

(** WhiteSpace and LineTerminator code units below 256: TAB, LF, VT, FF,
    CR, SP and NBSP. *)
Definition isWhiteSpace (c : ascii) : bool :=
  let n := nat_of_ascii c in
  ((9 <=? n) && (n <=? 13)) || (n =? 32) || (n =? 160).

(** Lower-case mapping below 256: A-Z, and the Latin-1 capitals
    U+00C0-U+00DE except the multiplication sign U+00D7. *)
Definition lowerChar (c : ascii) : ascii :=
  let n := nat_of_ascii c in
  if ((65 <=? n) && (n <=? 90))
     || ((192 <=? n) && (n <=? 222) && negb (n =? 215))
  then ascii_of_nat (n + 32)
  else c.

Fixpoint toLowerCase (s : string) : string :=
  match s with
  | EmptyString => EmptyString
  | String c r => String (lowerChar c) (toLowerCase r)
  end.

Fixpoint trimStart (s : string) : string :=
  match s with
  | EmptyString => EmptyString
  | String c r => if isWhiteSpace c then trimStart r else s
  end.

Definition isEmpty (s : string) : bool :=
  match s with EmptyString => true | String _ _ => false end.

Fixpoint trimEnd (s : string) : string :=
  match s with
  | EmptyString => EmptyString
  | String c r =>
      let r' := trimEnd r in
      if isWhiteSpace c && isEmpty r' then EmptyString else String c r'
  end.

Definition trim (s : string) : string := trimEnd (trimStart s).

(** Truthiness of a string value that may be [undefined]. *)
Definition truthy (v : option string) : bool :=
  match v with
  | Some s => negb (isEmpty s)
  | None => false
  end.

(** [a === b] where [a] may be [undefined] and [b] is a string. *)
Definition strictEq (a : option string) (b : string) : bool :=
  match a with
  | Some s => String.eqb s b
  | None => false
  end.

(** [a === b] where both may be [undefined]. *)
Definition strictEqOpt (a b : option string) : bool :=
  match a, b with
  | Some s, Some t => String.eqb s t
  | None, None => true
  | _, _ => false
  end.

(** [parts.join(sep)]. *)
Fixpoint join (sep : string) (parts : list string) : string :=
  match parts with
  | [] => EmptyString
  | [p] => p
  | p :: rest => (p ++ sep ++ join sep rest)%string
  end.

Definition quote : string := String (ascii_of_nat 34) EmptyString.

(** Every character of [s] is white space. *)
Fixpoint allWhiteSpace (s : string) : bool :=
  match s with
  | EmptyString => true
  | String c r => isWhiteSpace c && allWhiteSpace r
  end.

End Js.

(** ** Data model *)

Record Alias := mkAlias { alias : string }.

(** A JavaScript object as this command sees it.  The values that flow
    through [deployments] and [projects] are typed [any] at the point
    where they are filtered: a [Deployment], a [Project], or the error a
    lookup was rejected with, kept as a value by [.catch(err => err)].
    A field is [None] when the property is [undefined] on the object: an
    [Error] has a [name] and a [message] and, unless it is given them, no
    [id], [url] or [createdAt]. *)
Record JsObject := mkObject {
  isNowError : bool;          (* [d instanceof NowError] *)
  id : option string;
  name : option string;
  url : option string;
  createdAt : option Z;
  aliases : list Alias;
  message : option string
}.

Definition Deployment := JsObject.
Definition Project := JsObject.
Definition DeploymentWithAliases := JsObject.

(** [depl.aliases = v].  The objects are those of the parsed responses,
    one per response entry, and the command keeps no other reference to
    them, so the assignment is modelled on the value. *)
Definition setAliases (v : list Alias) (depl : JsObject) : DeploymentWithAliases :=
  {| isNowError := isNowError depl; id := id depl; name := name depl;
     url := url depl; createdAt := createdAt depl; aliases := v;
     message := message depl |}.

(** [new Error('Context name is not defined')]. *)
Definition contextNameError : JsObject :=
  {| isNowError := false; id := None; name := Some "Error"; url := None;
     createdAt := None; aliases := [];
     message := Some "Context name is not defined" |}.

(** The parsed command line: [argv] after [getArgs]. *)
Record Argv := mkArgv {
  flagHelp : bool;            (* argv['--help'] *)
  flagHard : bool;            (* argv['--hard'] *)
  flagYes : bool;             (* argv['--yes'] *)
  flagSafe : bool;            (* argv['--safe'] *)
  positional : list string    (* argv._ *)
}.

Record Client := mkClient { clientArgv : list string }.

(** ** Requests, terminal actions and the trace *)

Inductive event :=
  (* requests to the remote API *)
  | GetScope
  | GetDeployment (contextName idOrHost : string)
  | GetProjectByIdOrName (idOrName : string)
  | GetDeploymentsByProjectId (projectId : option string) (max : nat) (continue : bool)
  | GetAliases (deploymentId : option string)
  | NowRemove (deploymentId : option string) (hard : bool)
  | RemoveProject (projectId : option string)
  (* terminal *)
  | StdinData
  | PrintHelp
  | HandleError
  | OutputError (text : string)
  | Spinner (ids : list string) (contextName : option string)
  | StopSpinner
  | OutputLog (text : string)
  | LogFound (deployments projects : list JsObject) (contextName : option string)
  | OutputWarn (text : string)
  | ConfirmDeployments (deployments : list JsObject)
  | DeploymentTable (deployments : list JsObject) (times : list string)
  | WarnAlias (aliasName : string) (deploymentUrl : option string)
  | ConfirmProjects (projects : list JsObject)
  | AreYouSure
  | Success (deployments projects : list JsObject)
  | ConsoleLog (line : option string).

Definition isNetworkCall (e : event) : bool :=
  match e with
  | GetScope | GetDeployment _ _ | GetProjectByIdOrName _
  | GetDeploymentsByProjectId _ _ _ | GetAliases _
  | NowRemove _ _ | RemoveProject _ => true
  | _ => false
  end.

Definition isDeletionCall (e : event) : bool :=
  match e with
  | NowRemove _ _ | RemoveProject _ => true
  | _ => false
  end.

Definition networkCalls (t : list event) : list event := filter isNetworkCall t.
Definition deletionCalls (t : list event) : list event := filter isDeletionCall t.

(** ** Promises

    A settled promise: fulfilled with a value or rejected with an error.
    An error is an object like any other. *)

Inductive outcome (A : Type) :=
  | Resolved (a : A)
  | Rejected (err : JsObject).
Arguments Resolved {A} a.
Arguments Rejected {A} err.

(** ** The world and the trace

    [W] is the world outside the process: the remote API's state and the
    user at the terminal. *)

Record State (W : Type) := mkState { world : W; trace : list event }.

Arguments mkState {W} _ _.
Arguments world {W} _.
Arguments trace {W} _.

(** ** Collaborators

    Everything the command imports from [@vercel-internals/utils] and the
    terminal.  A request takes the world and answers with a fulfilled or a
    rejected promise.  [ms] is a plain function: it returns or it throws,
    and it is given [Date.now() - depl.createdAt], which is [NaN] for an
    object without [createdAt]. *)

Record Collaborators (W : Type) := mkCollaborators {
  getArgs : list string -> option Argv;          (* [None]: it throws *)
  isValidName : string -> bool;
  normalizeURL : string -> string;
  getCommandName : string -> string;
  bold : string -> string;                       (* chalk.bold *)
  getScope : W -> outcome (option string) * W;   (* the contextName *)
  getDeployment : string -> string -> W -> outcome (option JsObject) * W;
  getProjectByIdOrName : string -> W -> outcome (option JsObject) * W;
  getDeploymentsByProjectId :
    option string -> nat -> bool -> W -> outcome (list JsObject) * W;
  getAliases : option string -> W -> outcome (list Alias) * W;
  nowRemove : option string -> bool -> W -> outcome unit * W;
  removeProject : option string -> W -> outcome unit * W;
  stdinData : W -> string * W;                   (* the first chunk on stdin *)
  dateNow : W -> Z;                              (* Date.now() *)
  ms : option Z -> outcome string                (* the ms package; [None] is NaN *)
}.

Arguments getArgs {W} _.
Arguments isValidName {W} _.
Arguments normalizeURL {W} _.
Arguments getCommandName {W} _.
Arguments bold {W} _.
Arguments getScope {W} _.
Arguments getDeployment {W} _.
Arguments getProjectByIdOrName {W} _.
Arguments getDeploymentsByProjectId {W} _.
Arguments getAliases {W} _.
Arguments nowRemove {W} _.
Arguments removeProject {W} _.
Arguments stdinData {W} _.
Arguments dateNow {W} _.
Arguments ms {W} _.

(** The outcome of the resolution: the final removal sets. *)
Record Resolution := mkResolution {
  contextName : option string;
  deployments : list DeploymentWithAliases;
  projects : list Project
}.

(** ** Scenarios

    A concrete command line and remote API on which the properties are
    exercised.  The world is trivial: every collaborator answers from its
    arguments alone. *)

(** A typed not-found error, an instance of [NowError]. *)
Definition notFound : JsObject :=
  {| isNowError := true; id := None; name := Some "Error"; url := None;
     createdAt := None; aliases := []; message := Some "Not found" |}.

(** An untyped error: [new Error('socket hang up')]. *)
Definition networkError : JsObject :=
  {| isNowError := false; id := None; name := Some "Error"; url := None;
     createdAt := None; aliases := []; message := Some "socket hang up" |}.

(** What [ms] throws when it is given [NaN]. *)
Definition msError : JsObject :=
  {| isNowError := false; id := None; name := Some "Error"; url := None;
     createdAt := None; aliases := [];
     message := Some "val is not a non-empty string or a valid number. val=null" |}.

Definition deployment (i n u : string) : JsObject :=
  {| isNowError := false; id := Some i; name := Some n; url := Some u;
     createdAt := Some 1700000000000%Z; aliases := []; message := None |}.

Definition project (i n : string) : JsObject :=
  {| isNowError := false; id := Some i; name := Some n; url := None;
     createdAt := Some 1700000000000%Z; aliases := []; message := None |}.

(** The options of the command, then the positional arguments. *)
Fixpoint parseArgs (args : list string) (acc : Argv) : Argv :=
  match args with
  | [] => acc
  | a :: rest =>
      let acc' :=
        if String.eqb a "--help" then
          mkArgv true (flagHard acc) (flagYes acc) (flagSafe acc) (positional acc)
        else if String.eqb a "--hard" then
          mkArgv (flagHelp acc) true (flagYes acc) (flagSafe acc) (positional acc)
        else if String.eqb a "--yes" then
          mkArgv (flagHelp acc) (flagHard acc) true (flagSafe acc) (positional acc)
        else if String.eqb a "--safe" then
          mkArgv (flagHelp acc) (flagHard acc) (flagYes acc) true (positional acc)
        else
          mkArgv (flagHelp acc) (flagHard acc) (flagYes acc) (flagSafe acc)
                 (positional acc ++ [a])
      in
      parseArgs rest acc'
  end.

(** A name is valid when it has no slash. *)
Definition noSlash (s : string) : bool :=
  negb (existsb (fun ch => Ascii.eqb ch "/"%char) (list_ascii_of_string s)).

(** The remote account [me]: the deployment [abc123], any number of
    deployments answering to [bulk], and the project [my-app] with the
    deployments [d1], bound to an alias, and [d2]. *)
Definition cli (answer : string) : Collaborators unit :=
  {| getArgs := fun args => Some (parseArgs args (mkArgv false false false false []));
     isValidName := noSlash;
     normalizeURL := fun s => s;
     getCommandName := fun s => ("vercel " ++ s)%string;
     bold := fun s => s;
     getScope := fun w => (Resolved (Some "me"), w);
     getDeployment := fun _ idOrHost w =>
       if String.eqb idOrHost "abc123"
       then (Resolved (Some (deployment "abc123" "site" "site.vercel.app")), w)
       else if String.eqb idOrHost "bulk"
       then (Resolved (Some (deployment "bulk" "bulk" "bulk.vercel.app")), w)
       else if String.eqb idOrHost "d1"
       then (Resolved (Some (deployment "d1" "my-app" "my-app-1.vercel.app")), w)
       else (Rejected notFound, w);
     getProjectByIdOrName := fun idOrName w =>
       if String.eqb idOrName "my-app"
       then (Resolved (Some (project "prj_1" "my-app")), w)
       else (Resolved (Some notFound), w);
     getDeploymentsByProjectId := fun projectId _ _ w =>
       (Resolved [deployment "d1" "my-app" "my-app-1.vercel.app";
                  deployment "d2" "my-app" "my-app-2.vercel.app"], w);
     getAliases := fun deploymentId w =>
       if Js.strictEq deploymentId "d1"
       then (Resolved [mkAlias "www.example.com"], w)
       else (Resolved [], w);
     nowRemove := fun _ _ w => (Resolved tt, w);
     removeProject := fun _ w => (Resolved tt, w);
     stdinData := fun w => (answer, w);
     dateNow := fun _ => 1700086400000%Z;
     ms := fun n => match n with
                    | Some _ => Resolved "1d"
                    | None => Rejected msError
                    end |}.

(** The same, with a project lookup that is rejected for [flaky]. *)
Definition flakyCli (answer : string) : Collaborators unit :=
  {| getArgs := getArgs (cli answer);
     isValidName := isValidName (cli answer);
     normalizeURL := normalizeURL (cli answer);
     getCommandName := getCommandName (cli answer);
     bold := bold (cli answer);
     getScope := getScope (cli answer);
     getDeployment := getDeployment (cli answer);
     getProjectByIdOrName := fun idOrName w =>
       if String.eqb idOrName "flaky" then (Rejected networkError, w)
       else getProjectByIdOrName (cli answer) idOrName w;
     getDeploymentsByProjectId := getDeploymentsByProjectId (cli answer);
     getAliases := getAliases (cli answer);
     nowRemove := nowRemove (cli answer);
     removeProject := removeProject (cli answer);
     stdinData := stdinData (cli answer);
     dateNow := dateNow (cli answer);
     ms := ms (cli answer) |}.

(** The same, with a validator that also rejects the empty name. *)
Definition strictCli (answer : string) : Collaborators unit :=
  {| getArgs := getArgs (cli answer);
     isValidName := fun s => noSlash s && negb (Js.isEmpty s);
     normalizeURL := normalizeURL (cli answer);
     getCommandName := getCommandName (cli answer);
     bold := bold (cli answer);
     getScope := getScope (cli answer);
     getDeployment := getDeployment (cli answer);
     getProjectByIdOrName := getProjectByIdOrName (cli answer);
     getDeploymentsByProjectId := getDeploymentsByProjectId (cli answer);
     getAliases := getAliases (cli answer);
     nowRemove := nowRemove (cli answer);
     removeProject := removeProject (cli answer);
     stdinData := stdinData (cli answer);
     dateNow := dateNow (cli answer);
     ms := ms (cli answer) |}.

Definition start : State unit := {| world := tt; trace := [] |}.

(** [vercel rm args...]. *)
Definition vercelRm (args : list string) : Client :=
  {| clientArgv := "node" :: "vercel" :: "rm" :: args |}.

(** What the terminal delivers when the user types [line] and Enter. *)
Definition typed (line : string) : string :=
  (line ++ String (ascii_of_nat 10) EmptyString)%string.


(** The same as [cli], in a scope that has no context name. *)
Definition lostCli (answer : string) : Collaborators unit :=
  {| getArgs := getArgs (cli answer);
     isValidName := isValidName (cli answer);
     normalizeURL := normalizeURL (cli answer);
     getCommandName := getCommandName (cli answer);
     bold := bold (cli answer);
     getScope := fun w => (Resolved None, w);
     getDeployment := getDeployment (cli answer);
     getProjectByIdOrName := getProjectByIdOrName (cli answer);
     getDeploymentsByProjectId := getDeploymentsByProjectId (cli answer);
     getAliases := getAliases (cli answer);
     nowRemove := nowRemove (cli answer);
     removeProject := removeProject (cli answer);
     stdinData := stdinData (cli answer);
     dateNow := dateNow (cli answer);
     ms := ms (cli answer) |}.

(** A stand-in for [pluralize(word, count, inclusive)]: the word, with an
    [s] unless the count is one, after the count when [inclusive]. *)
Definition pluralWord (word : string) (count : nat) (inclusive : bool) : string :=
  let w := if count =? 1 then word else (word ++ "s")%string in
  if inclusive
  then (NilEmpty.string_of_uint (Nat.to_uint count) ++ " " ++ w)%string
  else w.

(** The same as [cli], off line: every deployment lookup is rejected with
    an untyped error. *)
Definition offlineCli (answer : string) : Collaborators unit :=
  {| getArgs := getArgs (cli answer);
     isValidName := isValidName (cli answer);
     normalizeURL := normalizeURL (cli answer);
     getCommandName := getCommandName (cli answer);
     bold := bold (cli answer);
     getScope := getScope (cli answer);
     getDeployment := fun _ _ w => (Rejected networkError, w);
     getProjectByIdOrName := getProjectByIdOrName (cli answer);
     getDeploymentsByProjectId := getDeploymentsByProjectId (cli answer);
     getAliases := getAliases (cli answer);
     nowRemove := nowRemove (cli answer);
     removeProject := removeProject (cli answer);
     stdinData := stdinData (cli answer);
     dateNow := dateNow (cli answer);
     ms := ms (cli answer) |}.
Section Remove.

Variable W : Type.

(** ** The monad

    A computation takes the world and the trace so far; it is fulfilled
    or rejected, and leaves a world and a longer trace. *)

Definition M (A : Type) : Type := State W -> outcome A * State W.

Definition ret {A} (a : A) : M A := fun s => (Resolved a, s).

Definition throw {A} (err : JsObject) : M A := fun s => (Rejected err, s).

Definition bind {A B} (m : M A) (k : A -> M B) : M B :=
  fun s =>
    match m s with
    | (Resolved a, s') => k a s'
    | (Rejected err, s') => (Rejected err, s')
    end.

Notation "x <- m ;; k" := (bind m (fun x => k))
  (at level 61, m at next level, right associativity).
Notation "m ;; k" := (bind m (fun _ => k))
  (at level 61, right associativity).

(** A terminal action. *)
Definition emit (e : event) : M unit :=
  fun s => (Resolved tt, {| world := world s; trace := trace s ++ [e] |}).

(** A request: it is recorded, then the collaborator answers. *)
Definition call {A} (e : event) (f : W -> outcome A * W) : M A :=
  fun s =>
    let '(o, w) := f (world s) in
    (o, {| world := w; trace := trace s ++ [e] |}).

(** [p.catch(err => err)]. *)
Definition catchAsValue (p : M (option JsObject)) : M (option JsObject) :=
  fun s =>
    match p s with
    | (Resolved v, s') => (Resolved v, s')
    | (Rejected err, s') => (Resolved (Some err), s')
    end.

(** [try { body } finally { fin }] with a [fin] that does not throw. *)
Definition tryFinally {A} (body : M A) (fin : M unit) : M A :=
  fun s =>
    let '(o, s1) := body s in
    let '(_, s2) := fin s1 in
    (o, s2).

(** The promises of a batch all run; each one settles. *)
Fixpoint settleAll {A} (ps : list (M A)) : State W -> list (outcome A) * State W :=
  match ps with
  | [] => fun s => ([], s)
  | p :: rest =>
      fun s =>
        let '(o, s1) := p s in
        let '(os, s2) := settleAll rest s1 in
        (o :: os, s2)
  end.

(** The batch is fulfilled with all the values, or rejected with a
    rejection of one of its members. *)
Fixpoint collect {A} (os : list (outcome A)) : outcome (list A) :=
  match os with
  | [] => Resolved []
  | Resolved a :: rest =>
      match collect rest with
      | Resolved l => Resolved (a :: l)
      | Rejected err => Rejected err
      end
  | Rejected err :: _ => Rejected err
  end.

(** [Promise.all(ps)]. *)
Definition PromiseAll {A} (ps : list (M A)) : M (list A) :=
  fun s => let '(os, s') := settleAll ps s in (collect os, s').

(** [Promise.all([a, b])] for two promises of different types. *)
Definition PromiseAll2 {A B} (a : M A) (b : M B) : M (A * B) :=
  fun s =>
    let '(oa, s1) := a s in
    let '(ob, s2) := b s1 in
    (match oa, ob with
     | Resolved x, Resolved y => Resolved (x, y)
     | Rejected err, _ => Rejected err
     | _, Rejected err => Rejected err
     end, s2).

(** [for (const e of es) emit(e)]. *)
Definition emitAll (es : list event) : M unit :=
  fun s => (Resolved tt, {| world := world s; trace := trace s ++ es |}).

Variable c : Collaborators W.

(** ** The command *)

(** [searchFilter] (lines 137-143). *)
Definition searchFilter (ids : list string) (d : option JsObject) : bool :=
  existsb
    (fun i =>
       match d with
       | None => false
       | Some o =>
           negb (isNowError o)
           && (Js.strictEq (id o) i
               || Js.strictEq (name o) i
               || Js.strictEq (url o) (normalizeURL c i))
       end)
    ids.

(** [results.filter((d: any) => searchFilter(d))]: the values that pass are
    objects, a falsy value never passes. *)
Fixpoint filterMatches (ids : list string) (results : list (option JsObject))
  : list JsObject :=
  match results with
  | [] => []
  | d :: rest =>
      match d with
      | Some o =>
          if searchFilter ids d then o :: filterMatches ids rest
          else filterMatches ids rest
      | None => filterMatches ids rest
      end
  end.

(** The requests of lines 147-152 before [.catch]. *)
Definition deploymentLookups (ctx : string) (ids : list string)
  : list (M (option JsObject)) :=
  map (fun idOrHost =>
         call (GetDeployment ctx idOrHost) (getDeployment c ctx idOrHost))
      ids.

(** [.catch(err => err)] on the outcome of a lookup. *)
Definition asValue (o : outcome (option JsObject)) : option JsObject :=
  match o with
  | Resolved v => v
  | Rejected err => Some err
  end.

(** The requests of lines 154-156. *)
Definition projectByIdOrNameLookups (ids : list string)
  : list (M (option JsObject)) :=
  map (fun idOrName =>
         call (GetProjectByIdOrName idOrName) (getProjectByIdOrName c idOrName))
      ids.

(** The two lookup batches (lines 145-157).  The callback of the first
    [ids.map] throws synchronously when the context name is falsy, before
    any lookup is issued. *)
Definition lookup (contextName : option string) (ids : list string)
  : M (list (option JsObject) * list (option JsObject)) :=
  let ctx := match contextName with Some n => n | None => EmptyString end in
  let batches :=
    PromiseAll2
      (PromiseAll (map catchAsValue (deploymentLookups ctx ids)))
      (PromiseAll (projectByIdOrNameLookups ids)) in
  match ids with
  | _ :: _ => if Js.truthy contextName then batches else throw contextNameError
  | [] => batches
  end.

(** The placeholder of lines 179-181: [depl.aliases = []]. *)
Definition placeholder (pDepl : JsObject) : DeploymentWithAliases :=
  setAliases [] pDepl.

(** The requests of lines 167-172, one per project:
    [getDeploymentsByProjectId(client, project.id, { max: 201, continue: true })]. *)
Definition projectLookups (projects : list JsObject) : list (M (list JsObject)) :=
  map (fun project =>
         call (GetDeploymentsByProjectId (id project) 201 true)
              (getDeploymentsByProjectId c (id project) 201 true))
      projects.

(** Lines 163-191: with [--safe] the projects are replaced by their
    deployments, otherwise the deployments of a matched project are left
    to the removal of the project. *)
Definition expand (safe : bool) (deployments projects : list JsObject)
  : M (list JsObject * list JsObject) :=
  if safe then
    projectDeployments <- PromiseAll (projectLookups projects) ;;
    (* only process the first 201 projects *)
    let to := Nat.min (length projectDeployments) 201 in
    ret (deployments
           ++ flat_map (map placeholder) (firstn to projectDeployments),
         [])
  else
    ret (filter
           (fun d =>
              negb (existsb (fun p => Js.strictEqOpt (name p) (name d)) projects))
           deployments,
         projects).

(** Lines 193-198. *)
Definition fetchAliases (deployments : list JsObject) : M (list (list Alias)) :=
  PromiseAll
    (map (fun depl => call (GetAliases (id depl)) (getAliases c (id depl)))
         deployments).

(** Lines 203-210: [deployments.filter((match, i) => ...)].  [aliasLists]
    is what [fetchAliases deployments] was fulfilled with, one list per
    deployment, so [aliases[i]] is always defined. *)
Fixpoint filterByAliases (safe : bool) (deployments : list JsObject)
  (aliasLists : list (list Alias)) : list DeploymentWithAliases :=
  match deployments, aliasLists with
  | match_ :: ds, a :: als =>
      if safe && (0 <? length a) then filterByAliases safe ds als
      else setAliases a match_ :: filterByAliases safe ds als
  | _, _ => []
  end.

(** The [try] block of lines 136-198: the candidate sets and the alias
    lists fetched for the candidate deployments. *)
Definition findCandidates (safe : bool) (ctx : option string) (ids : list string)
  : M ((list JsObject * list JsObject) * list (list Alias)) :=
  lists <- lookup ctx ids ;;
  let ds := filterMatches ids (fst lists) in
  let ps := filterMatches ids (snd lists) in
  sets <- expand safe ds ps ;;
  aliasLists <- fetchAliases (fst sets) ;;
  ret (sets, aliasLists).

(** Lines 123-210: from the scope to the final removal sets. *)
Definition resolve (safe : bool) (ids : list string) : M Resolution :=
  ctx <- call GetScope (getScope c) ;;
  emit (Spinner ids ctx) ;;
  found <- tryFinally (findCandidates safe ctx ids) (emit StopSpinner) ;;
  ret {| contextName := ctx;
         deployments := filterByAliases safe (fst (fst found)) (snd found);
         projects := snd (fst found) |}.

(** [process.stdin.on('data', d => ...)]: the first chunk of standard
    input, as a string. *)
Definition readStdin : M string :=
  fun s =>
    let '(d, w) := stdinData c (world s) in
    (Resolved d, {| world := w; trace := trace s ++ [StdinData] |}).

(** [Date.now() - depl.createdAt] (line 290): a number, or [NaN] when the
    object has no [createdAt]. *)
Definition age (w : W) (depl : JsObject) : option Z :=
  match createdAt depl with
  | Some t => Some (dateNow c w - t)%Z
  | None => None
  end.

(** The [time] column of the table of lines 288-295: [ms] on the age of
    each row in turn; if [ms] throws on a row, so does the [map]. *)
Fixpoint times (w : W) (ds : list JsObject) : outcome (list string) :=
  match ds with
  | [] => Resolved []
  | depl :: rest =>
      match ms c (age w depl) with
      | Resolved time =>
          match times w rest with
          | Resolved l => Resolved (time :: l)
          | Rejected err => Rejected err
          end
      | Rejected err => Rejected err
      end
  end.

(** The column, drawn in the world as it is; nothing is printed yet. *)
Definition drawTimes (ds : list JsObject) : M (list string) :=
  fun s => (times (world s) ds, s).

(** Lines 279-297: the heading, then the table. *)
Definition listDeployments (ds : list DeploymentWithAliases) : M unit :=
  if 0 <? length ds then
    emit (ConfirmDeployments ds) ;;
    rows <- drawTimes ds ;;
    emit (DeploymentTable ds rows)
  else ret tt.

(** [readConfirmation] (lines 273-336).  What is thrown in the executor
    of the promise rejects it. *)
Definition readConfirmation (ds : list DeploymentWithAliases) (ps : list Project)
  : M string :=
  listDeployments ds ;;
  emitAll
    (flat_map (fun depl => map (fun a => WarnAlias (alias a) (url depl)) (aliases depl))
              ds) ;;
  (if 0 <? length ps then emit (ConfirmProjects ps) else ret tt) ;;
  emit AreYouSure ;;
  d <- readStdin ;;
  ret (Js.trim d).

Definition couldNotFind (safe : bool) (ids : list string) : string :=
  ("Could not find " ++ (if safe then "unaliased" else "any") ++ " deployments "
   ++ "or projects matching "
   ++ Js.join ", " (map (fun i => bold c (Js.quote ++ i ++ Js.quote)) ids)
   ++ ". Run " ++ getCommandName c "ls" ++ " to list.")%string.

Definition only200 : string :=
  ("Only 200 deployments can get deleted at once. "
   ++ "Please continue 10 minutes after deletion to remove the rest.")%string.

(** The array of lines 252-255: the deletion requests, issued as the
    array is built. *)
Definition deletionBatch (hard : bool) (ds : list DeploymentWithAliases)
  (ps : list Project) : list (M unit) :=
  map (fun depl => call (NowRemove (id depl) hard) (nowRemove c (id depl) hard)) ds
  ++ map (fun project =>
            call (RemoveProject (id project)) (removeProject c (id project)))
         ps.

(** Lines 246-270: the deletions and the report. *)
Definition execute (hard : bool) (ds : list DeploymentWithAliases) (ps : list Project)
  : M nat :=
  PromiseAll (deletionBatch hard ds ps) ;;
  emit (Success ds ps) ;;
  emitAll (map (fun depl => ConsoleLog (url depl)) ds) ;;
  emitAll (map (fun project => ConsoleLog (name project)) ps) ;;
  ret 0.

(** The comparison of lines 238-240 on what [readConfirmation] resolved. *)
Definition accepted (answer : string) : bool :=
  let confirmation := Js.toLowerCase answer in
  negb (negb (String.eqb confirmation "y") && negb (String.eqb confirmation "yes")).

(** Lines 212-270: what happens to the final removal sets. *)
Definition conclude (argv : Argv) (ids : list string) (r : Resolution) : M nat :=
  let ds := deployments r in
  let ps := projects r in
  if (length ds =? 0) && (length ps =? 0) then
    emit (OutputLog (couldNotFind (flagSafe argv) ids)) ;;
    ret 1
  else
    emit (LogFound ds ps (contextName r)) ;;
    (if 200 <? length ds then emit (OutputWarn only200) else ret tt) ;;
    if flagYes argv then execute (flagHard argv) ds ps
    else
      answer <- readConfirmation ds ps ;;
      if accepted answer then execute (flagHard argv) ds ps
      else emit (OutputLog "Canceled") ;; ret 1.

Definition invalidArgument (invalidName : string) : string :=
  ("The provided argument " ++ Js.quote ++ invalidName ++ Js.quote
   ++ " is not a valid deployment or project")%string.

(** [main] (lines 75-271). *)
Definition main (client : Client) : M nat :=
  match getArgs c (skipn 2 (clientArgv client)) with
  | None => emit HandleError ;; ret 1
  | Some argv =>
      let ids := tl (positional argv) in
      if flagHelp argv || Js.strictEq (hd_error ids) "help" then
        emit PrintHelp ;; ret 2
      else if length ids <? 1 then
        emit (OutputError (getCommandName c "rm" ++ " expects at least one argument")%string) ;;
        emit PrintHelp ;;
        ret 1
      else
        let invalidName := find (fun name => negb (isValidName c name)) ids in
        if Js.truthy invalidName then
          emit (OutputError
                  (invalidArgument
                     (match invalidName with Some n => n | None => EmptyString end))) ;;
          ret 1
        else
          r <- resolve (flagSafe argv) ids ;;
          conclude argv ids r
  end.

(** ** Vocabulary of the properties *)

(** [adds P m]: running [m] only appends events, all of them in [P]. *)
Definition adds {A} (P : event -> bool) (m : M A) : Prop :=
  forall s, exists es, trace (snd (m s)) = trace s ++ es /\ forallb P es = true.

Definition notDeletion (e : event) : bool := negb (isDeletionCall e).

(** The deletion requests of [execute]: one per deployment, then one per
    project, whether or not one of them is rejected. *)
Definition deletionsOf (hard : bool) (ds ps : list JsObject) : list event :=
  map (fun depl => NowRemove (id depl) hard) ds
  ++ map (fun project => RemoveProject (id project)) ps.

(** The command line gets past the argument checks of lines 78-121. *)
Definition reachesResolution (client : Client) (argv : Argv) : Prop :=
  getArgs c (skipn 2 (clientArgv client)) = Some argv
  /\ flagHelp argv = false
  /\ Js.strictEq (hd_error (tl (positional argv))) "help" = false
  /\ (length (tl (positional argv)) <? 1) = false
  /\ Js.truthy (find (fun n => negb (isValidName c n)) (tl (positional argv)))
     = false.

(** The state in which the [try] block starts: the scope has answered
    with [ctx] and left the world [w], and the spinner is on. *)
Definition scoped (s : State W) (ids : list string) (ctx : option string) (w : W)
  : State W :=
  {| world := w; trace := trace s ++ [GetScope; Spinner ids ctx] |}.

Definition nothingFound (r : Resolution) : bool :=
  (length (deployments r) =? 0) && (length (projects r) =? 0).

(** The state in which the confirmation or the execution starts: the
    removal sets have been announced, with the warning of lines 228-233
    when there are more than 200 deployments. *)
Definition announced (r : Resolution) (s : State W) : State W :=
  {| world := world s;
     trace := trace s
              ++ LogFound (deployments r) (projects r) (contextName r)
              :: (if 200 <? length (deployments r) then [OutputWarn only200] else []) |}.

(** ** The summary of the removal sets *)

(** [deploymentsAndProjects] (lines 338-355), with the [pluralize]
    package as [plural].  Both callers leave [conjunction] to its default,
    ['and']; the lists they pass are never [undefined]. *)
Definition deploymentsAndProjects (plural : string -> nat -> bool -> string)
  (deployments projects : list JsObject) (conjunction : string) : string :=
  if length projects =? 0 then
    plural "deployment" (length deployments) true
  else if length deployments =? 0 then
    plural "project" (length projects) true
  else
    (plural "deployment" (length deployments) true ++ " "
     ++ conjunction ++ " " ++ plural "project" (length projects) true)%string.

(** ** Footprints

    [emits P m]: running [m] only appends events, each of them in [P]. *)
Definition emits {A} (P : event -> Prop) (m : M A) : Prop :=
  forall s, exists es, trace (snd (m s)) = trace s ++ es /\ Forall P es.

(** What the argument checks of lines 78-121 may print. *)
Definition argumentEvent (e : event) : Prop :=
  match e with
  | HandleError | PrintHelp | OutputError _ => True
  | _ => False
  end.

(** What the resolution of [ids] may do: the scope, the spinner, lookups
    of the identifiers, alias lookups and, in safe mode only, the
    listings of the deployments of a project. *)
Definition resolveEvent (safe : bool) (ids : list string) (e : event) : Prop :=
  match e with
  | GetScope | StopSpinner | GetAliases _ => True
  | Spinner ids' _ => ids' = ids
  | GetDeployment _ idOrHost => In idOrHost ids
  | GetProjectByIdOrName idOrName => In idOrName ids
  | GetDeploymentsByProjectId _ max continue =>
      safe = true /\ max = 201 /\ continue = true
  | _ => False
  end.

(** What may follow the resolution [r] of [ids]. *)
Definition concludeEvent (argv : Argv) (ids : list string) (r : Resolution)
  (e : event) : Prop :=
  match e with
  | OutputLog text =>
      (text = couldNotFind (flagSafe argv) ids /\ nothingFound r = true)
      \/ (text = "Canceled" /\ flagYes argv = false /\ nothingFound r = false)
  | LogFound ds ps ctx =>
      ds = deployments r /\ ps = projects r /\ ctx = contextName r
      /\ nothingFound r = false
  | OutputWarn text => text = only200 /\ 200 < length (deployments r)
  | ConfirmDeployments ds =>
      flagYes argv = false /\ ds = deployments r /\ 0 < length ds
  | DeploymentTable ds rows =>
      flagYes argv = false /\ ds = deployments r /\ 0 < length ds
      /\ length rows = length ds
  | WarnAlias aliasName deploymentUrl =>
      flagYes argv = false
      /\ exists depl a, In depl (deployments r) /\ In a (aliases depl)
                        /\ aliasName = alias a /\ deploymentUrl = url depl
  | ConfirmProjects ps =>
      flagYes argv = false /\ ps = projects r /\ 0 < length ps
  | AreYouSure | StdinData => flagYes argv = false /\ nothingFound r = false
  | NowRemove deploymentId hard =>
      hard = flagHard argv
      /\ exists depl, In depl (deployments r) /\ deploymentId = id depl
  | RemoveProject projectId =>
      exists project, In project (projects r) /\ projectId = id project
  | Success ds ps =>
      ds = deployments r /\ ps = projects r /\ nothingFound r = false
  | ConsoleLog line =>
      (exists depl, In depl (deployments r) /\ line = url depl)
      \/ (exists project, In project (projects r) /\ line = name project)
  | _ => False
  end.

(** What [main] may do from the state [s]. *)
Definition mainEvent (client : Client) (s : State W) (e : event) : Prop :=
  argumentEvent e
  \/ exists argv,
       getArgs c (skipn 2 (clientArgv client)) = Some argv
       /\ (resolveEvent (flagSafe argv) (tl (positional argv)) e
           \/ exists r s1,
                resolve (flagSafe argv) (tl (positional argv)) s = (Resolved r, s1)
                /\ concludeEvent argv (tl (positional argv)) r e).

(** Help is requested: [--help], or [help] as the first identifier. *)
Definition helpRequested (client : Client) : Prop :=
  exists argv,
    getArgs c (skipn 2 (clientArgv client)) = Some argv
    /\ (flagHelp argv = true \/ hd_error (tl (positional argv)) = Some "help").

(** The table of the confirmation can be drawn in the world [w]: [ms]
    returns for every row.  It is given a number for a row with a
    [createdAt], and [NaN] for a row without. *)
Definition tabulates (w : W) (ds : list JsObject) : Prop :=
  exists rows, times w ds = Resolved rows.

(** The user agrees to the removal of the resolution [r] made in [s1]:
    [--yes], or a confirmation that is drawn and answered with an
    accepted answer. *)
Definition consents (argv : Argv) (r : Resolution) (s1 : State W) : Prop :=
  flagYes argv = true
  \/ (tabulates (world s1) (deployments r)
      /\ accepted (Js.trim (fst (stdinData c (world s1)))) = true).

(** The ways [main] can be rejected with [err]: the missing context name,
    a request that a collaborator rejects with [err], or [ms] throwing
    [err] on a row of the confirmation.  The deployment lookup is not
    among them. *)
Definition culprit (err : JsObject) : Prop :=
  err = contextNameError
  \/ (exists n, ms c n = Rejected err)
  \/ (exists w w', getScope c w = (Rejected err, w'))
  \/ (exists idOrName w w', getProjectByIdOrName c idOrName w = (Rejected err, w'))
  \/ (exists projectId max continue w w',
        getDeploymentsByProjectId c projectId max continue w = (Rejected err, w'))
  \/ (exists deploymentId w w', getAliases c deploymentId w = (Rejected err, w'))
  \/ (exists deploymentId hard w w',
        nowRemove c deploymentId hard w = (Rejected err, w'))
  \/ (exists projectId w w', removeProject c projectId w = (Rejected err, w')).

(** [blames m]: [m] is rejected only with the error of a [culprit]. *)
Definition blames {A} (m : M A) : Prop :=
  forall s err s', m s = (Rejected err, s') -> culprit err.

(** The report of [execute] once every deletion is fulfilled. *)
Definition removalReport (ds ps : list JsObject) : list event :=
  Success ds ps
  :: map (fun depl => ConsoleLog (url depl)) ds
  ++ map (fun project => ConsoleLog (name project)) ps.

(** A final entry answers to one of the requested identifiers: it is no
    instance of [NowError], and its id, name or URL is the identifier.
    (An untyped error kept by [.catch] has a name, and answers to it.) *)
Definition answersTo (ids : list string) (o : JsObject) : Prop :=
  isNowError o = false
  /\ exists i, In i ids
               /\ (id o = Some i \/ name o = Some i
                   \/ url o = Some (normalizeURL c i)).

(** ** Batches *)

Lemma settleAll_length {A} (ps : list (M A)) (s : State W) :
  length (fst (settleAll ps s)) = length ps.
Proof.
  revert s; induction ps as [|p rest IH]; intros s; simpl; [reflexivity|].
  destruct (p s) as [o s1]. specialize (IH s1).
  destruct (settleAll rest s1) as [os s2]. simpl in *. now rewrite IH.
Qed.

Lemma settleAll_app {A} (ps qs : list (M A)) (s : State W) :
  settleAll (ps ++ qs) s =
  (fst (settleAll ps s) ++ fst (settleAll qs (snd (settleAll ps s))),
   snd (settleAll qs (snd (settleAll ps s)))).
Proof.
  revert s; induction ps as [|p rest IH]; intros s; simpl.
  - now destruct (settleAll qs s).
  - destruct (p s) as [o s1]. rewrite IH.
    destruct (settleAll rest s1) as [os s2]. simpl.
    reflexivity.
Qed.

Lemma collect_Resolved {A} (os : list (outcome A)) (l : list A) :
  collect os = Resolved l -> os = map Resolved l.
Proof.
  revert l; induction os as [|o rest IH]; intros l H; simpl in H.
  - injection H as <-. reflexivity.
  - destruct o as [a|err]; [|discriminate].
    destruct (collect rest) as [l'|err]; [|discriminate].
    injection H as <-. simpl. now rewrite (IH l' eq_refl).
Qed.

Lemma collect_map_Resolved {A} (l : list A) :
  collect (map Resolved l) = Resolved l.
Proof.
  induction l as [|a l IH]; simpl; [reflexivity|now rewrite IH].
Qed.

Lemma PromiseAll_Resolved {A} (ps : list (M A)) (s s' : State W) (l : list A) :
  PromiseAll ps s = (Resolved l, s') ->
  settleAll ps s = (map Resolved l, s') /\ length l = length ps.
Proof.
  unfold PromiseAll. intros H.
  pose proof (settleAll_length ps s) as Hlen.
  destruct (settleAll ps s) as [os s2]. injection H as Hc <-.
  apply collect_Resolved in Hc. subst os. split; [reflexivity|].
  simpl in Hlen. now rewrite length_map in Hlen.
Qed.

(** A batch of members that each record one event records them in list
    order, whatever their outcomes. *)
Lemma settleAll_trace {A X} (mk : X -> M A) (ev : X -> event) :
  (forall x s, trace (snd (mk x s)) = trace s ++ [ev x]) ->
  forall xs s, trace (snd (settleAll (map mk xs) s)) = trace s ++ map ev xs.
Proof.
  intros Hmk xs; induction xs as [|x xs IH]; intros s; simpl.
  - now rewrite app_nil_r.
  - specialize (Hmk x s). destruct (mk x s) as [o s1]. simpl in Hmk.
    specialize (IH s1). destruct (settleAll (map mk xs) s1) as [os s2].
    simpl in *. rewrite IH, Hmk, <- app_assoc. reflexivity.
Qed.

Lemma call_trace {A} (e : event) (f : W -> outcome A * W) (s : State W) :
  trace (snd (call e f s)) = trace s ++ [e].
Proof. unfold call. now destruct (f (world s)). Qed.

Lemma catchAsValue_trace (p : M (option JsObject)) (s : State W) :
  trace (snd (catchAsValue p s)) = trace (snd (p s)).
Proof. unfold catchAsValue. now destruct (p s) as [[v|err] s']. Qed.

Lemma PromiseAll_trace {A} (ps : list (M A)) (s : State W) :
  snd (PromiseAll ps s) = snd (settleAll ps s).
Proof. unfold PromiseAll. now destruct (settleAll ps s). Qed.

(** ** What a computation adds to the trace *)


Lemma adds_ret {A} P (a : A) : adds P (ret a).
Proof. intros s. exists []. simpl. now rewrite app_nil_r. Qed.

Lemma adds_throw {A} P err : adds P (@throw A err).
Proof. intros s. exists []. simpl. now rewrite app_nil_r. Qed.

Lemma adds_emit P e : P e = true -> adds P (emit e).
Proof. intros H s. exists [e]. simpl. now rewrite H. Qed.

Lemma adds_emitAll P es : forallb P es = true -> adds P (emitAll es).
Proof. intros H s. exists es. now simpl. Qed.

Lemma adds_call {A} P e (f : W -> outcome A * W) : P e = true -> adds P (call e f).
Proof. intros H s. exists [e]. rewrite call_trace. simpl. now rewrite H. Qed.

Lemma adds_bind {A B} P (m : M A) (k : A -> M B) :
  adds P m -> (forall a, adds P (k a)) -> adds P (bind m k).
Proof.
  intros Hm Hk s. unfold bind. destruct (Hm s) as [es [E F]].
  destruct (m s) as [[a|err] s1]; simpl in E.
  - destruct (Hk a s1) as [es' [E' F']]. exists (es ++ es').
    rewrite E', E, app_assoc, forallb_app, F, F'. now split.
  - exists es. now split.
Qed.

Lemma adds_catchAsValue P p : adds P p -> adds P (catchAsValue p).
Proof. intros H s. rewrite catchAsValue_trace. apply H. Qed.

Lemma adds_tryFinally {A} P (body : M A) fin :
  adds P body -> adds P fin -> adds P (tryFinally body fin).
Proof.
  intros Hb Hf s. unfold tryFinally. destruct (Hb s) as [es [E F]].
  destruct (body s) as [o s1]. destruct (Hf s1) as [es' [E' F']].
  destruct (fin s1) as [u s2]. simpl in *. exists (es ++ es').
  rewrite E', E, app_assoc, forallb_app, F, F'. now split.
Qed.

Lemma adds_settleAll {A} P (ps : list (M A)) :
  Forall (adds P) ps ->
  forall s, exists es,
    trace (snd (settleAll ps s)) = trace s ++ es /\ forallb P es = true.
Proof.
  induction 1 as [|p rest Hp _ IH]; intros s; simpl.
  - exists []. simpl. now rewrite app_nil_r.
  - destruct (Hp s) as [es [E F]]. destruct (p s) as [o s1].
    destruct (IH s1) as [es' [E' F']]. destruct (settleAll rest s1) as [os s2].
    simpl in *. exists (es ++ es').
    rewrite E', E, app_assoc, forallb_app, F, F'. now split.
Qed.

Lemma adds_PromiseAll {A} P (ps : list (M A)) :
  Forall (adds P) ps -> adds P (PromiseAll ps).
Proof. intros H s. rewrite PromiseAll_trace. now apply adds_settleAll. Qed.

Lemma adds_PromiseAll2 {A B} P (a : M A) (b : M B) :
  adds P a -> adds P b -> adds P (PromiseAll2 a b).
Proof.
  intros Ha Hb s. unfold PromiseAll2. destruct (Ha s) as [es [E F]].
  destruct (a s) as [oa s1]. destruct (Hb s1) as [es' [E' F']].
  destruct (b s1) as [ob s2]. simpl in *. exists (es ++ es').
  rewrite E', E, app_assoc, forallb_app, F, F'. now split.
Qed.

Lemma adds_map {A X} P (mk : X -> M A) (xs : list X) :
  (forall x, adds P (mk x)) -> Forall (adds P) (map mk xs).
Proof. intros H. induction xs; simpl; constructor; auto. Qed.

(** ** The stages of the command and the trace *)


Lemma deletionCalls_adds (t es : list event) :
  forallb notDeletion es = true -> deletionCalls (t ++ es) = deletionCalls t.
Proof.
  intros H. unfold deletionCalls. rewrite filter_app.
  assert (E : filter isDeletionCall es = []).
  { induction es as [|e es IH]; simpl in *; [reflexivity|].
    apply andb_true_iff in H as [He Hes]. unfold notDeletion in He.
    destruct (isDeletionCall e); [discriminate|auto]. }
  now rewrite E, app_nil_r.
Qed.

Lemma adds_deletionCalls {A} (m : M A) (s : State W) :
  adds notDeletion m ->
  deletionCalls (trace (snd (m s))) = deletionCalls (trace s).
Proof.
  intros H. destruct (H s) as [es [E F]]. rewrite E.
  now apply deletionCalls_adds.
Qed.

Lemma lookup_adds ctx ids : adds notDeletion (lookup ctx ids).
Proof.
  assert (G : forall n,
    adds notDeletion
      (PromiseAll2
         (PromiseAll (map catchAsValue (deploymentLookups n ids)))
         (PromiseAll (projectByIdOrNameLookups ids)))).
  { intros n. apply adds_PromiseAll2; apply adds_PromiseAll.
    - unfold deploymentLookups. rewrite map_map. apply adds_map.
      intros x. apply adds_catchAsValue. now apply adds_call.
    - apply adds_map. intros x. now apply adds_call. }
  unfold lookup. destruct ids as [|i ids']; [apply G|].
  destruct (Js.truthy ctx); [apply G|apply adds_throw].
Qed.

Lemma expand_adds safe ds ps : adds notDeletion (expand safe ds ps).
Proof.
  unfold expand. destruct safe.
  - apply adds_bind; [|intros; apply adds_ret].
    apply adds_PromiseAll, adds_map. intros x. now apply adds_call.
  - apply adds_ret.
Qed.

Lemma fetchAliases_adds ds : adds notDeletion (fetchAliases ds).
Proof.
  unfold fetchAliases. apply adds_PromiseAll, adds_map. intros x.
  now apply adds_call.
Qed.

Lemma resolve_adds safe ids : adds notDeletion (resolve safe ids).
Proof.
  unfold resolve.
  apply adds_bind; [now apply adds_call|intros ctx].
  apply adds_bind; [now apply adds_emit|intros _].
  apply adds_bind; [|intros; apply adds_ret].
  apply adds_tryFinally; [|now apply adds_emit]. unfold findCandidates.
  apply adds_bind; [apply lookup_adds|intros lists].
  apply adds_bind; [apply expand_adds|intros sets].
  apply adds_bind; [apply fetchAliases_adds|intros; apply adds_ret].
Qed.

Lemma readStdin_adds : adds notDeletion readStdin.
Proof.
  intros s. exists [StdinData]. unfold readStdin.
  now destruct (stdinData c (world s)).
Qed.

Lemma forallb_notDeletion_WarnAlias (ds : list JsObject) :
  forallb notDeletion
    (flat_map (fun depl => map (fun a => WarnAlias (alias a) (url depl)) (aliases depl))
              ds) = true.
Proof.
  apply forallb_forall. intros e He. apply in_flat_map in He as [d [_ He]].
  apply in_map_iff in He as [a [<- _]]. reflexivity.
Qed.

Lemma drawTimes_adds P ds : adds P (drawTimes ds).
Proof. intros s. exists []. simpl. now rewrite app_nil_r. Qed.

Lemma readConfirmation_adds ds ps : adds notDeletion (readConfirmation ds ps).
Proof.
  unfold readConfirmation.
  apply adds_bind.
  { unfold listDeployments. destruct (0 <? length ds); [|apply adds_ret].
    apply adds_bind; [now apply adds_emit|intros _].
    apply adds_bind; [apply drawTimes_adds|intros rows]. now apply adds_emit. }
  intros _.
  apply adds_bind; [apply adds_emitAll, forallb_notDeletion_WarnAlias|intros _].
  apply adds_bind; [destruct (0 <? length ps); [now apply adds_emit|apply adds_ret]|intros _].
  apply adds_bind; [now apply adds_emit|intros _].
  apply adds_bind; [apply readStdin_adds|intros; apply adds_ret].
Qed.

Lemma deletionCalls_deletionsOf hard ds ps :
  deletionCalls (deletionsOf hard ds ps) = deletionsOf hard ds ps.
Proof.
  unfold deletionCalls, deletionsOf. rewrite filter_app. f_equal.
  - induction ds; simpl; [reflexivity|now f_equal].
  - induction ps; simpl; [reflexivity|now f_equal].
Qed.

Lemma forallb_notDeletion_ConsoleLog {X} (f : X -> option string) (xs : list X) :
  forallb notDeletion (map (fun x => ConsoleLog (f x)) xs) = true.
Proof. induction xs; simpl; auto. Qed.

Lemma execute_deletions hard ds ps s :
  deletionCalls (trace (snd (execute hard ds ps s)))
  = deletionCalls (trace s) ++ deletionsOf hard ds ps.
Proof.
  unfold execute, bind at 1.
  set (batch := deletionBatch hard ds ps).
  assert (T : trace (snd (PromiseAll batch s)) = trace s ++ deletionsOf hard ds ps).
  { rewrite PromiseAll_trace. unfold batch, deletionBatch.
    rewrite settleAll_app. simpl.
    rewrite (settleAll_trace _ (fun project => RemoveProject (id project)))
      by (intros; apply call_trace).
    rewrite (settleAll_trace _ (fun depl => NowRemove (id depl) hard))
      by (intros; apply call_trace).
    unfold deletionsOf. now rewrite app_assoc. }
  destruct (PromiseAll batch s) as [[l|err] s1]; simpl in T.
  - rewrite adds_deletionCalls.
    + simpl. rewrite T. unfold deletionCalls. rewrite filter_app.
      f_equal. apply deletionCalls_deletionsOf.
    + apply adds_bind; [now apply adds_emit|intros _].
      apply adds_bind; [apply adds_emitAll, forallb_notDeletion_ConsoleLog|intros _].
      apply adds_bind; [apply adds_emitAll, forallb_notDeletion_ConsoleLog|intros _].
      apply adds_ret.
  - simpl. rewrite T. unfold deletionCalls. rewrite filter_app.
    f_equal. apply deletionCalls_deletionsOf.
Qed.

Lemma adds_weaken {A} (P Q : event -> bool) (m : M A) :
  (forall e, P e = true -> Q e = true) -> adds P m -> adds Q m.
Proof.
  intros HPQ H s. destruct (H s) as [es [E F]]. exists es. split; [exact E|].
  apply forallb_forall. intros e He. apply HPQ.
  now apply (proj1 (forallb_forall P es) F).
Qed.

Lemma adds_In {A} P (m : M A) (s : State W) (e : event) :
  adds P m -> In e (trace s) -> In e (trace (snd (m s))).
Proof.
  intros H Hin. destruct (H s) as [es [E _]]. rewrite E.
  apply in_or_app. now left.
Qed.

Lemma execute_adds hard ds ps : adds (fun _ => true) (execute hard ds ps).
Proof.
  unfold execute, deletionBatch.
  apply adds_bind.
  - apply adds_PromiseAll. apply Forall_app. split; apply adds_map;
      intros x; now apply adds_call.
  - intros _. apply adds_bind; [now apply adds_emit|intros _].
    apply adds_bind; [apply adds_emitAll, forallb_forall; reflexivity|intros _].
    apply adds_bind; [apply adds_emitAll, forallb_forall; reflexivity|intros _].
    apply adds_ret.
Qed.

(** ** From [main] to its stages *)


Lemma main_resolution client argv s :
  reachesResolution client argv ->
  main client s
  = bind (resolve (flagSafe argv) (tl (positional argv)))
         (conclude argv (tl (positional argv))) s.
Proof.
  intros (Ha & Hh & Hh' & Hl & Hv). unfold main.
  rewrite Ha, Hh, Hh', Hl, Hv. reflexivity.
Qed.

Lemma main_resolved client argv s r s1 :
  reachesResolution client argv ->
  resolve (flagSafe argv) (tl (positional argv)) s = (Resolved r, s1) ->
  main client s = conclude argv (tl (positional argv)) r s1.
Proof.
  intros Hr Hres. rewrite (main_resolution _ _ _ Hr). unfold bind.
  now rewrite Hres.
Qed.



Lemma conclude_found argv ids r s :
  nothingFound r = false ->
  conclude argv ids r s
  = (if flagYes argv then execute (flagHard argv) (deployments r) (projects r)
     else
       bind (readConfirmation (deployments r) (projects r))
            (fun answer =>
               if accepted answer
               then execute (flagHard argv) (deployments r) (projects r)
               else bind (emit (OutputLog "Canceled")) (fun _ => ret 1)))
      (announced r s).
Proof.
  unfold nothingFound, conclude, announced. intros ->.
  unfold bind at 1. simpl. unfold bind at 1.
  destruct (200 <? length (deployments r)); simpl; [|reflexivity].
  now rewrite <- app_assoc.
Qed.

Lemma conclude_nothing argv ids r s :
  nothingFound r = true ->
  conclude argv ids r s
  = (Resolved 1,
     {| world := world s;
        trace := trace s ++ [OutputLog (couldNotFind (flagSafe argv) ids)] |}).
Proof. unfold nothingFound, conclude. intros ->. reflexivity. Qed.

(** Whatever follows the announcement only adds to the trace. *)
Lemma conclude_found_adds argv r :
  adds (fun _ => true)
    (if flagYes argv then execute (flagHard argv) (deployments r) (projects r)
     else
       bind (readConfirmation (deployments r) (projects r))
            (fun answer =>
               if accepted answer
               then execute (flagHard argv) (deployments r) (projects r)
               else bind (emit (OutputLog "Canceled")) (fun _ => ret 1))).
Proof.
  destruct (flagYes argv); [apply execute_adds|].
  apply adds_bind.
  - apply (adds_weaken notDeletion); [reflexivity|apply readConfirmation_adds].
  - intros answer. destruct (accepted answer); [apply execute_adds|].
    apply adds_bind; [now apply adds_emit|intros; apply adds_ret].
Qed.

Lemma times_length w ds rows : times w ds = Resolved rows -> length rows = length ds.
Proof.
  revert rows; induction ds as [|d ds IH]; intros rows H; simpl in H.
  - now injection H as <-.
  - destruct (ms c (age w d)) as [t|err]; [|discriminate].
    destruct (times w ds) as [l|err]; [|discriminate].
    injection H as <-. simpl. now rewrite (IH l eq_refl).
Qed.

Lemma listDeployments_run ds s rows :
  times (world s) ds = Resolved rows ->
  listDeployments ds s
  = (Resolved tt,
     {| world := world s;
        trace := trace s
                 ++ (if 0 <? length ds
                     then [ConfirmDeployments ds; DeploymentTable ds rows]
                     else []) |}).
Proof.
  intros H. unfold listDeployments. destruct ds as [|d ds].
  - cbn [length Nat.ltb Nat.leb]. unfold ret. rewrite app_nil_r. now destruct s.
  - cbn [length Nat.ltb Nat.leb]. unfold bind, emit, drawTimes.
    cbn [world trace]. rewrite H. now rewrite <- app_assoc.
Qed.

Lemma listDeployments_throws ds s err :
  times (world s) ds = Rejected err ->
  listDeployments ds s
  = (Rejected err,
     {| world := world s; trace := trace s ++ [ConfirmDeployments ds] |}).
Proof.
  intros H. unfold listDeployments. destruct ds as [|d ds]; [discriminate H|].
  cbn [length Nat.ltb Nat.leb]. unfold bind, emit, drawTimes. cbn [world trace].
  now rewrite H.
Qed.

(** When the table can be drawn, [readConfirmation] resolves to the
    trimmed chunk of standard input. *)
Lemma readConfirmation_run ds ps s :
  tabulates (world s) ds ->
  exists es,
    readConfirmation ds ps s
    = (Resolved (Js.trim (fst (stdinData c (world s)))),
       {| world := snd (stdinData c (world s)); trace := trace s ++ es |})
    /\ forallb notDeletion es = true.
Proof.
  intros [rows Hrows]. unfold readConfirmation, bind at 1.
  rewrite (listDeployments_run _ _ _ Hrows).
  unfold bind, readStdin, emitAll, emit, ret. cbn [world trace].
  destruct ds as [|d0 ds], ps as [|p0 ps]; cbn [length Nat.ltb Nat.leb world trace];
    destruct (stdinData c (world s)) as [d w]; cbn [fst snd];
    eexists; (split; [repeat rewrite <- app_assoc; reflexivity|]);
    rewrite ?forallb_app, ?forallb_notDeletion_WarnAlias; reflexivity.
Qed.

(** When [ms] throws on a row, [readConfirmation] is rejected with what
    it throws, after the heading of the table and before the prompt. *)
Lemma readConfirmation_throws ds ps s err :
  times (world s) ds = Rejected err ->
  readConfirmation ds ps s
  = (Rejected err,
     {| world := world s; trace := trace s ++ [ConfirmDeployments ds] |}).
Proof.
  intros H. unfold readConfirmation, bind at 1.
  now rewrite (listDeployments_throws _ _ _ H).
Qed.

(** Once the sets are announced and the user consents, [main] is the
    execution of the announced sets. *)
Lemma main_proceeds client argv s r s1 :
  reachesResolution client argv ->
  resolve (flagSafe argv) (tl (positional argv)) s = (Resolved r, s1) ->
  nothingFound r = false ->
  consents argv r s1 ->
  exists s2,
    main client s = execute (flagHard argv) (deployments r) (projects r) s2
    /\ deletionCalls (trace s2) = deletionCalls (trace s)
    /\ (forall e, In e (trace (announced r s1)) -> In e (trace s2)).
Proof.
  intros Hreach Hres Hfound Hgo. unfold consents in Hgo.
  rewrite (main_resolved _ _ _ _ _ Hreach Hres), (conclude_found _ _ _ _ Hfound).
  assert (D1 : deletionCalls (trace (announced r s1)) = deletionCalls (trace s)).
  { pose proof (adds_deletionCalls _ s (resolve_adds (flagSafe argv) (tl (positional argv)))) as D.
    rewrite Hres in D. simpl in D. rewrite <- D. unfold announced. simpl.
    apply deletionCalls_adds. now destruct (200 <? length (deployments r)). }
  destruct (flagYes argv) eqn:Hyes.
  - exists (announced r s1). repeat split; auto.
  - destruct Hgo as [Hgo|[Htab Hgo]]; [discriminate|].
    destruct (readConfirmation_run (deployments r) (projects r) (announced r s1) Htab)
      as [es [Hrun Hes]].
    unfold bind at 1. rewrite Hrun.
    change (world (announced r s1)) with (world s1). rewrite Hgo.
    eexists. split; [reflexivity|]. simpl. split.
    + rewrite deletionCalls_adds by exact Hes. exact D1.
    + intros e He. apply in_or_app. now left.
Qed.

(** A declined confirmation ends [main] with exit code 1 and nothing
    deleted. *)
Lemma main_declines client argv s r s1 :
  reachesResolution client argv ->
  resolve (flagSafe argv) (tl (positional argv)) s = (Resolved r, s1) ->
  nothingFound r = false ->
  flagYes argv = false ->
  tabulates (world s1) (deployments r) ->
  accepted (Js.trim (fst (stdinData c (world s1)))) = false ->
  exists t,
    main client s
    = (Resolved 1,
       {| world := snd (stdinData c (world s1));
          trace := t ++ [OutputLog "Canceled"] |})
    /\ deletionCalls (t ++ [OutputLog "Canceled"]) = deletionCalls (trace s).
Proof.
  intros Hreach Hres Hfound Hyes Htab Hno.
  rewrite (main_resolved _ _ _ _ _ Hreach Hres), (conclude_found _ _ _ _ Hfound), Hyes.
  destruct (readConfirmation_run (deployments r) (projects r) (announced r s1) Htab)
    as [es [Hrun Hes]].
  unfold bind at 1. rewrite Hrun.
  change (world (announced r s1)) with (world s1). rewrite Hno.
  eexists. split; [reflexivity|].
  rewrite deletionCalls_adds by reflexivity. simpl.
  rewrite deletionCalls_adds by exact Hes.
  pose proof (adds_deletionCalls _ s (resolve_adds (flagSafe argv) (tl (positional argv)))) as D.
  rewrite Hres in D. simpl in D. rewrite <- D.
  apply deletionCalls_adds. now destruct (200 <? length (deployments r)).
Qed.

(** A confirmation that cannot be drawn rejects [main] before the
    prompt, with nothing deleted. *)
Lemma main_undrawn client argv s r s1 err :
  reachesResolution client argv ->
  resolve (flagSafe argv) (tl (positional argv)) s = (Resolved r, s1) ->
  nothingFound r = false ->
  flagYes argv = false ->
  times (world s1) (deployments r) = Rejected err ->
  main client s
  = (Rejected err,
     {| world := world s1;
        trace := trace (announced r s1) ++ [ConfirmDeployments (deployments r)] |})
  /\ deletionCalls (trace (announced r s1) ++ [ConfirmDeployments (deployments r)])
     = deletionCalls (trace s).
Proof.
  intros Hreach Hres Hfound Hyes Hthrow.
  rewrite (main_resolved _ _ _ _ _ Hreach Hres), (conclude_found _ _ _ _ Hfound), Hyes.
  unfold bind at 1.
  rewrite (readConfirmation_throws (deployments r) (projects r) (announced r s1) err)
    by exact Hthrow.
  split; [reflexivity|].
  rewrite deletionCalls_adds by reflexivity.
  pose proof (adds_deletionCalls _ s (resolve_adds (flagSafe argv) (tl (positional argv)))) as D.
  rewrite Hres in D. simpl in D. rewrite <- D. unfold announced. simpl.
  apply deletionCalls_adds. now destruct (200 <? length (deployments r)).
Qed.

(** ** Trimming and case *)

Lemma lowerChar_whiteSpace (a : ascii) :
  Js.isWhiteSpace a = true -> Js.lowerChar a = a.
Proof.
  destruct a as [[] [] [] [] [] [] [] []]; intros H;
    first [reflexivity | discriminate H].
Qed.

Lemma trimStart_whiteSpace (pre s : string) :
  Js.allWhiteSpace pre = true -> Js.trimStart (pre ++ s) = Js.trimStart s.
Proof.
  induction pre as [|a pre IH]; simpl; intros H; [reflexivity|].
  apply andb_true_iff in H as [Ha Hpre]. rewrite Ha. now apply IH.
Qed.

Lemma trimEnd_whiteSpace (post : string) :
  Js.allWhiteSpace post = true -> Js.trimEnd post = EmptyString.
Proof.
  induction post as [|a post IH]; simpl; intros H; [reflexivity|].
  apply andb_true_iff in H as [Ha Hpost]. now rewrite (IH Hpost), Ha.
Qed.

Lemma trimEnd_append (s post : string) :
  Js.allWhiteSpace post = true -> Js.trimEnd (s ++ post) = Js.trimEnd s.
Proof.
  intros H. induction s as [|a s IH]; simpl.
  - now apply trimEnd_whiteSpace.
  - now rewrite IH.
Qed.

(** A token whose lower case is [y] or [yes] has no white space at its
    ends, so trimming leaves it alone. *)
Lemma trim_token (token : string) :
  Js.toLowerCase token = "y" \/ Js.toLowerCase token = "yes" ->
  Js.trim token = token.
Proof.
  assert (NW : forall a b : ascii, Js.lowerChar a = b -> Js.isWhiteSpace b = false ->
                                   Js.isWhiteSpace a = false).
  { intros a b E Hb. destruct (Js.isWhiteSpace a) eqn:Ha; [|reflexivity].
    rewrite (lowerChar_whiteSpace a Ha) in E. congruence. }
  intros [H|H].
  - destruct token as [|a [|b t]]; simpl in H; try discriminate.
    injection H as Ha. unfold Js.trim. simpl.
    rewrite (NW a _ Ha eq_refl). simpl.
    now rewrite (NW a _ Ha eq_refl).
  - destruct token as [|a [|b [|d [|e t]]]]; simpl in H; try discriminate.
    injection H as Ha Hb Hd. unfold Js.trim. simpl.
    rewrite (NW a _ Ha eq_refl). simpl.
    rewrite (NW d _ Hd eq_refl). simpl.
    now rewrite !andb_false_r.
Qed.

Lemma trim_surrounded (pre token post : string) :
  Js.allWhiteSpace pre = true ->
  Js.allWhiteSpace post = true ->
  Js.toLowerCase token = "y" \/ Js.toLowerCase token = "yes" ->
  Js.trim (pre ++ token ++ post) = token.
Proof.
  intros Hpre Hpost Htok. pose proof (trim_token token Htok) as T.
  unfold Js.trim in *. rewrite trimStart_whiteSpace by exact Hpre.
  assert (S : Js.trimStart token = token).
  { destruct Htok as [H|H]; destruct token as [|a t]; simpl in *; try discriminate;
      destruct (Js.isWhiteSpace a) eqn:Ha; try reflexivity;
      rewrite (lowerChar_whiteSpace a Ha) in H; injection H as -> _; discriminate Ha. }
  assert (S' : Js.trimStart (token ++ post) = (token ++ post)%string).
  { destruct token as [|a t]; [destruct Htok; discriminate|].
    simpl in *. destruct (Js.isWhiteSpace a); [|reflexivity].
    exfalso. clear -S. assert (L : String.length (Js.trimStart t) <= String.length t).
    { clear. induction t as [|b t IH]; simpl; [lia|].
      destruct (Js.isWhiteSpace b); simpl; lia. }
    rewrite S in L. simpl in L. lia. }
  rewrite S', trimEnd_append by exact Hpost. now rewrite S in T.
Qed.

Lemma accepted_spec (answer : string) :
  accepted answer = true
  <-> Js.toLowerCase answer = "y" \/ Js.toLowerCase answer = "yes".
Proof.
  unfold accepted. rewrite negb_true_iff, andb_false_iff, !negb_false_iff, !String.eqb_eq.
  reflexivity.
Qed.

(** ** Inversion of a completed resolution *)

Lemma bind_Resolved {A B} (m : M A) (k : A -> M B) s b s' :
  bind m k s = (Resolved b, s') ->
  exists a s1, m s = (Resolved a, s1) /\ k a s1 = (Resolved b, s').
Proof.
  unfold bind. destruct (m s) as [[a|err] s1]; [|discriminate].
  intros H. now exists a, s1.
Qed.

Lemma findCandidates_Resolved safe ctx ids s ds ps als s' :
  findCandidates safe ctx ids s = (Resolved ((ds, ps), als), s') ->
  exists dl pl s1 s2,
    lookup ctx ids s = (Resolved (dl, pl), s1)
    /\ expand safe (filterMatches ids dl) (filterMatches ids pl) s1
       = (Resolved (ds, ps), s2)
    /\ fetchAliases ds s2 = (Resolved als, s')
    /\ length als = length ds.
Proof.
  unfold findCandidates. intros H.
  apply bind_Resolved in H as ([dl pl] & s1 & Hl & H).
  apply bind_Resolved in H as ([ds' ps'] & s2 & He & H).
  apply bind_Resolved in H as (als' & s3 & Hf & H).
  injection H as -> -> -> ->. exists dl, pl, s1, s2. repeat split; auto.
  unfold fetchAliases in Hf. apply PromiseAll_Resolved in Hf as [_ L].
  now rewrite length_map in L.
Qed.

Lemma resolve_Resolved safe ids s r s' :
  resolve safe ids s = (Resolved r, s') ->
  exists ctx w s2 ds ps als,
    getScope c (world s) = (Resolved ctx, w)
    /\ findCandidates safe ctx ids (scoped s ids ctx w)
       = (Resolved ((ds, ps), als), s2)
    /\ s' = {| world := world s2; trace := trace s2 ++ [StopSpinner] |}
    /\ r = {| contextName := ctx;
              deployments := filterByAliases safe ds als;
              projects := ps |}.
Proof.
  unfold resolve. intros H.
  apply bind_Resolved in H as (ctx & s1 & Hs & H).
  apply bind_Resolved in H as ([] & s2 & He & H).
  apply bind_Resolved in H as ([[ds ps] als] & s3 & Ht & H).
  injection H as <- <-. unfold tryFinally in Ht.
  unfold call in Hs. destruct (getScope c (world s)) as [o w] eqn:Hg.
  injection Hs as -> <-. unfold emit in He. simpl in He. injection He as <-.
  rewrite <- app_assoc in Ht. simpl in Ht.
  fold (scoped s ids ctx w) in Ht.
  destruct (findCandidates safe ctx ids (scoped s ids ctx w)) as [o s4] eqn:Hc.
  simpl in Ht. injection Ht as -> <-.
  now exists ctx, w, s4, ds, ps, als.
Qed.

(** ** The filters *)

Lemma filterByAliases_safe (ds : list JsObject) (als : list (list Alias)) :
  filterByAliases true ds als
  = map (fun ca => placeholder (fst ca))
        (filter (fun ca => length (snd ca) =? 0) (combine ds als)).
Proof.
  revert als; induction ds as [|d ds IH]; intros [|a als]; simpl; try reflexivity.
  destruct a as [|x a]; simpl; [|apply IH].
  now rewrite IH.
Qed.

Lemma filterByAliases_keeps (ds : list JsObject) (als : list (list Alias)) :
  length als = length ds ->
  map (setAliases []) (filterByAliases false ds als) = map (setAliases []) ds.
Proof.
  revert als; induction ds as [|d ds IH]; intros [|a als] L; simpl in *;
    try discriminate; [reflexivity|].
  injection L as L. now rewrite (IH als L).
Qed.

Lemma filterByAliases_names (ds : list JsObject) (als : list (list Alias)) (d : JsObject) :
  In d (filterByAliases false ds als) -> exists d0, In d0 ds /\ name d = name d0.
Proof.
  revert als; induction ds as [|d0 ds IH]; intros [|a als] H; simpl in H;
    try contradiction.
  destruct H as [<-|H].
  - exists d0. split; [now left|reflexivity].
  - destruct (IH als H) as [d1 [I E]]. exists d1. split; [now right|exact E].
Qed.

Lemma strictEqOpt_eq (a b : option string) : Js.strictEqOpt a b = true <-> a = b.
Proof.
  destruct a as [x|], b as [y|]; simpl; try (split; congruence).
  rewrite String.eqb_eq. split; congruence.
Qed.

Lemma expand_safe ds ps s ds' ps' s' :
  expand true ds ps s = (Resolved (ds', ps'), s') ->
  exists projectDeployments,
    settleAll (projectLookups ps) s = (map Resolved projectDeployments, s')
    /\ length projectDeployments = length ps
    /\ ds' = ds ++ flat_map (map placeholder) (firstn 201 projectDeployments)
    /\ ps' = [].
Proof.
  unfold expand. intros H. apply bind_Resolved in H as (pds & s1 & Hp & H).
  injection H as <- <- <-. apply PromiseAll_Resolved in Hp as [Hs L].
  unfold projectLookups in L. rewrite length_map in L.
  exists pds. repeat split; auto.
  f_equal. f_equal.
  destruct (Nat.min_spec (length pds) 201) as [[Hlt ->]|[Hge ->]]; [|reflexivity].
  now rewrite !firstn_all2 by lia.
Qed.

Lemma expand_unsafe ds ps s :
  expand false ds ps s
  = (Resolved
       (filter (fun d => negb (existsb (fun p => Js.strictEqOpt (name p) (name d)) ps)) ds,
        ps), s).
Proof. reflexivity. Qed.

(** ** The lookup batches *)

Lemma settleAll_catchAsValue (ps : list (M (option JsObject))) (s : State W) :
  settleAll (map catchAsValue ps) s
  = (map Resolved (map asValue (fst (settleAll ps s))), snd (settleAll ps s)).
Proof.
  revert s; induction ps as [|p ps IH]; intros s; simpl; [reflexivity|].
  unfold catchAsValue at 1. destruct (p s) as [[v|err] s1]; rewrite IH;
    destruct (settleAll ps s1) as [os s2]; reflexivity.
Qed.

(** Project lookups that all answer with a value make a batch that is
    fulfilled. *)
Lemma settleAll_values {A X} (e : X -> event) (f : X -> W -> outcome A * W) :
  (forall x w, exists v w', f x w = (Resolved v, w')) ->
  forall xs s, exists vs,
    fst (settleAll (map (fun x => call (e x) (f x)) xs) s) = map Resolved vs.
Proof.
  intros Hf xs; induction xs as [|x xs IH]; intros s; simpl.
  - now exists [].
  - unfold call at 1. destruct (Hf x (world s)) as (v & w' & ->).
    match goal with |- context [settleAll _ ?s1] => destruct (IH s1) as [vs Hvs] end.
    destruct (settleAll _ _) as [os s2]. simpl in *. subst os.
    now exists (v :: vs).
Qed.

Lemma filterMatches_In ids results o :
  In o (filterMatches ids results) ->
  In (Some o) results /\ searchFilter ids (Some o) = true.
Proof.
  induction results as [|[o'|] rest IH]; simpl; intros H; try contradiction.
  - destruct (searchFilter ids (Some o')) eqn:E.
    + destruct H as [->|H]; [split; [now left|exact E]|].
      destruct (IH H); split; [now right|assumption].
    + destruct (IH H); split; [now right|assumption].
  - destruct (IH H); split; [now right|assumption].
Qed.

Lemma strictEq_eq (a : option string) (b : string) :
  Js.strictEq a b = true <-> a = Some b.
Proof.
  destruct a as [x|]; simpl; [|split; congruence].
  rewrite String.eqb_eq. split; congruence.
Qed.

Lemma searchFilter_matches ids o :
  searchFilter ids (Some o) = true ->
  isNowError o = false
  /\ exists i, In i ids
               /\ (id o = Some i \/ name o = Some i \/ url o = Some (normalizeURL c i)).
Proof.
  unfold searchFilter. intros H. apply existsb_exists in H as (i & Hi & H).
  apply andb_true_iff in H as [Hn H]. apply negb_true_iff in Hn.
  split; [exact Hn|]. exists i. split; [exact Hi|].
  apply orb_true_iff in H as [H|H]; [apply orb_true_iff in H as [H|H]|];
    apply strictEq_eq in H; auto.
Qed.

Lemma collect_Rejected {A} (os : list (outcome A)) err :
  collect os = Rejected err -> In (Rejected err) os.
Proof.
  induction os as [|o rest IH]; simpl; [discriminate|].
  destruct o as [a|err0].
  - destruct (collect rest) as [l|err1]; [discriminate|].
    intros H. injection H as <-. right. now apply IH.
  - intros H. injection H as <-. now left.
Qed.

Lemma collect_In_Rejected {A} (os : list (outcome A)) err :
  In (Rejected err) os -> exists err', collect os = Rejected err'.
Proof.
  induction os as [|o rest IH]; simpl; [contradiction|].
  intros [->|H]; [now exists err|].
  destruct o as [a|err0]; [|now exists err0].
  destruct (IH H) as [err' ->]. now exists err'.
Qed.

(** ** Properties of the removal workflow *)

(** C1. In safe mode every deployment of the final removal set has an
    empty alias list: the final set is made of exactly those candidate
    deployments whose fetched alias list is empty, so a candidate whose
    fetched alias list is non-empty is dropped. *)
Theorem safe_removal_set_alias_free ids s r s' :
  resolve true ids s = (Resolved r, s') ->
  Forall (fun depl => aliases depl = []) (deployments r)
  /\ exists ctx w s2 candidates ps aliasLists,
       getScope c (world s) = (Resolved ctx, w)
       /\ findCandidates true ctx ids (scoped s ids ctx w)
          = (Resolved ((candidates, ps), aliasLists), s2)
       /\ length aliasLists = length candidates
       /\ deployments r
          = map (fun ca => placeholder (fst ca))
                (filter (fun ca => length (snd ca) =? 0)
                        (combine candidates aliasLists)).
Proof.
  intros H.
  apply resolve_Resolved in H as (ctx & w & s2 & ds & ps & als & Hg & Hc & _ & ->).
  simpl. rewrite filterByAliases_safe. split.
  - apply Forall_forall. intros d Hd. apply in_map_iff in Hd as [ca [<- _]].
    reflexivity.
  - exists ctx, w, s2, ds, ps, als. repeat split; auto.
    now apply findCandidates_Resolved in Hc as (dl & pl & sa & sb & _ & _ & _ & L).
Qed.

(** C4. In safe mode the project removal set is empty after resolution,
    whatever the identifiers and whatever the lookups answered. *)
Theorem safe_projects_empty ids s r s' :
  resolve true ids s = (Resolved r, s') -> projects r = [].
Proof.
  intros H.
  apply resolve_Resolved in H as (ctx & w & s2 & ds & ps & als & _ & Hc & _ & ->).
  apply findCandidates_Resolved in Hc as (dl & pl & sa & sb & _ & He & _).
  now apply expand_safe in He as (pds & _ & _ & _ & ->).
Qed.

(** C5. Without safe mode no deployment of the final removal set has the
    name of a project of the final removal set: the final projects are
    the matched projects, and the final deployments are the matched
    deployments whose name is not the name of a matched project (with
    their aliases attached). *)
Theorem no_double_removal ids s r s' :
  resolve false ids s = (Resolved r, s') ->
  Forall (fun depl => Forall (fun project => name project <> name depl) (projects r))
         (deployments r)
  /\ exists ctx w s2 deploymentList projectList,
       getScope c (world s) = (Resolved ctx, w)
       /\ lookup ctx ids (scoped s ids ctx w)
          = (Resolved (deploymentList, projectList), s2)
       /\ projects r = filterMatches ids projectList
       /\ map (setAliases []) (deployments r)
          = map (setAliases [])
                (filter (fun d =>
                           negb (existsb (fun p => Js.strictEqOpt (name p) (name d))
                                         (projects r)))
                        (filterMatches ids deploymentList)).
Proof.
  intros H.
  apply resolve_Resolved in H as (ctx & w & s2 & ds & ps & als & Hg & Hc & _ & ->).
  apply findCandidates_Resolved in Hc as (dl & pl & sa & sb & Hl & He & _ & L).
  rewrite expand_unsafe in He. injection He as <- <- <-. simpl. split.
  - apply Forall_forall. intros d Hd.
    apply filterByAliases_names in Hd as (d0 & Hd0 & ->).
    apply filter_In in Hd0 as [_ Hd0]. apply negb_true_iff in Hd0.
    apply Forall_forall. intros p Hp E.
    assert (X : existsb (fun p => Js.strictEqOpt (name p) (name d0))
                        (filterMatches ids pl) = true).
    { apply existsb_exists. exists p. split; [exact Hp|]. now apply strictEqOpt_eq. }
    congruence.
  - exists ctx, w, sa, dl, pl. repeat split; auto.
    now apply filterByAliases_keeps.
Qed.

(** C7. When the final deployment set and the final project set are
    both empty, [main] logs the not-found message, worded with
    [unaliased] in safe mode and with [any] otherwise, returns exit code
    1 and issues no deletion request. *)
Theorem nothing_found_exit client argv s r s1 :
  reachesResolution client argv ->
  resolve (flagSafe argv) (tl (positional argv)) s = (Resolved r, s1) ->
  deployments r = [] ->
  projects r = [] ->
  main client s
  = (Resolved 1,
     {| world := world s1;
        trace := trace s1
                 ++ [OutputLog (couldNotFind (flagSafe argv) (tl (positional argv)))] |})
  /\ deletionCalls (trace (snd (main client s))) = deletionCalls (trace s)
  /\ exists matching,
       couldNotFind (flagSafe argv) (tl (positional argv))
       = ((if flagSafe argv
           then "Could not find unaliased deployments or projects matching "
           else "Could not find any deployments or projects matching ")
          ++ matching)%string.
Proof.
  intros Hreach Hres Hd Hp.
  assert (E : main client s
              = (Resolved 1,
                 {| world := world s1;
                    trace := trace s1
                             ++ [OutputLog (couldNotFind (flagSafe argv)
                                                         (tl (positional argv)))] |})).
  { rewrite (main_resolved _ _ _ _ _ Hreach Hres). apply conclude_nothing.
    unfold nothingFound. now rewrite Hd, Hp. }
  split; [exact E|]. split.
  - rewrite E. simpl. rewrite deletionCalls_adds by reflexivity.
    pose proof (adds_deletionCalls _ s
                  (resolve_adds (flagSafe argv) (tl (positional argv)))) as D.
    now rewrite Hres in D.
  - unfold couldNotFind. destruct (flagSafe argv); eexists; reflexivity.
Qed.

(** C9. With more than 200 resolved deployments [main] emits the warning
    and goes on; the warning changes nothing in what is executed: the
    execution issues one deletion request for every deployment and every
    project it is given, however many, and what it is given once the user
    consents (with [--yes], or at a confirmation that is drawn and
    accepted) is the resolved sets. *)
Theorem volume_warning_is_informational client argv s r s1 :
  reachesResolution client argv ->
  resolve (flagSafe argv) (tl (positional argv)) s = (Resolved r, s1) ->
  (200 < length (deployments r) ->
   In (OutputWarn only200) (trace (snd (main client s))))
  /\ (forall s2,
        deletionCalls
          (trace (snd (execute (flagHard argv) (deployments r) (projects r) s2)))
        = deletionCalls (trace s2)
          ++ deletionsOf (flagHard argv) (deployments r) (projects r))
  /\ (consents argv r s1 ->
      deletionCalls (trace (snd (main client s)))
      = deletionCalls (trace s)
        ++ deletionsOf (flagHard argv) (deployments r) (projects r)).
Proof.
  intros Hreach Hres.
  pose proof (adds_deletionCalls _ s
                (resolve_adds (flagSafe argv) (tl (positional argv)))) as D0.
  rewrite Hres in D0. simpl in D0.
  split; [|split; [intros s2; apply execute_deletions|]];
    destruct (nothingFound r) eqn:Hfound.
  - unfold nothingFound in Hfound. apply andb_true_iff in Hfound as [Hd Hp].
    apply Nat.eqb_eq in Hd. intros Hlen. lia.
  - intros Hlen.
    rewrite (main_resolved _ _ _ _ _ Hreach Hres), (conclude_found _ _ _ _ Hfound).
    apply (adds_In _ _ _ _ (conclude_found_adds argv r)).
    unfold announced. simpl. apply in_or_app. right. right.
    apply Nat.ltb_lt in Hlen. rewrite Hlen. now left.
  - intros _. pose proof Hfound as Hf.
    unfold nothingFound in Hf. apply andb_true_iff in Hf as [Hd Hp].
    apply Nat.eqb_eq in Hd, Hp.
    rewrite (main_resolved _ _ _ _ _ Hreach Hres), (conclude_nothing _ _ _ _ Hfound).
    simpl. rewrite deletionCalls_adds by reflexivity.
    apply length_zero_iff_nil in Hd, Hp. rewrite Hd, Hp.
    unfold deletionsOf. simpl. now rewrite app_nil_r.
  - intros Hgo.
    destruct (main_proceeds _ _ _ _ _ Hreach Hres Hfound Hgo) as (s2 & -> & D & _).
    now rewrite execute_deletions, D.
Qed.

(** C6, as amended. When the confirmation is not skipped and its table
    can be drawn, the chunk read from standard input is trimmed of
    surrounding white space and lower cased, then compared with [y] and
    [yes]: on either of them [main] goes on to the execution and issues
    the deletion requests of the resolved sets; on anything else, the
    empty line included, it logs [Canceled], returns exit code 1 and
    issues no deletion request.  When the table cannot be drawn, [ms]
    throwing on one of its rows, [main] is rejected with what [ms] threw
    and issues no deletion request. *)
Theorem confirmation_decides client argv s r s1 :
  reachesResolution client argv ->
  resolve (flagSafe argv) (tl (positional argv)) s = (Resolved r, s1) ->
  nothingFound r = false ->
  flagYes argv = false ->
  let confirmation := Js.toLowerCase (Js.trim (fst (stdinData c (world s1)))) in
  (tabulates (world s1) (deployments r) ->
   (confirmation = "y" \/ confirmation = "yes" ->
    (exists s2,
       main client s = execute (flagHard argv) (deployments r) (projects r) s2)
    /\ deletionCalls (trace (snd (main client s)))
       = deletionCalls (trace s)
         ++ deletionsOf (flagHard argv) (deployments r) (projects r))
   /\ (confirmation <> "y" /\ confirmation <> "yes" ->
       fst (main client s) = Resolved 1
       /\ (exists t, trace (snd (main client s)) = t ++ [OutputLog "Canceled"])
       /\ deletionCalls (trace (snd (main client s))) = deletionCalls (trace s)))
  /\ (forall err,
        times (world s1) (deployments r) = Rejected err ->
        fst (main client s) = Rejected err
        /\ deletionCalls (trace (snd (main client s))) = deletionCalls (trace s)).
Proof.
  intros Hreach Hres Hfound Hyes confirmation. split; [intros Htab; split|].
  - intros Hc. apply accepted_spec in Hc.
    destruct (main_proceeds _ _ _ _ _ Hreach Hres Hfound (or_intror (conj Htab Hc)))
      as (s2 & E & D & _).
    split; [now exists s2|]. now rewrite E, execute_deletions, D.
  - intros [Hn1 Hn2].
    assert (Hno : accepted (Js.trim (fst (stdinData c (world s1)))) = false).
    { destruct (accepted _) eqn:Ha; [|reflexivity].
      apply accepted_spec in Ha. now destruct Ha. }
    destruct (main_declines _ _ _ _ _ Hreach Hres Hfound Hyes Htab Hno)
      as (t & -> & D).
    simpl. repeat split; auto. now exists t.
  - intros err Ht.
    destruct (main_undrawn _ _ _ _ _ _ Hreach Hres Hfound Hyes Ht) as [E D].
    rewrite E. split; [reflexivity|exact D].
Qed.

(** C10. The confirmation input is trimmed before it is compared: an
    input that is [y] or [yes] up to case, surrounded by any white space,
    is an accepted answer once trimmed; and when the confirmation is drawn
    and this input read, [main] goes on to the execution and issues the
    deletion requests of the resolved sets. *)
Theorem confirmation_ignores_surrounding_space
  client argv s r s1 (before token after : string) :
  Js.allWhiteSpace before = true ->
  Js.allWhiteSpace after = true ->
  Js.toLowerCase token = "y" \/ Js.toLowerCase token = "yes" ->
  accepted (Js.trim (before ++ token ++ after)) = true
  /\ (reachesResolution client argv ->
      resolve (flagSafe argv) (tl (positional argv)) s = (Resolved r, s1) ->
      nothingFound r = false ->
      flagYes argv = false ->
      tabulates (world s1) (deployments r) ->
      fst (stdinData c (world s1)) = (before ++ token ++ after)%string ->
      (exists s2,
         main client s = execute (flagHard argv) (deployments r) (projects r) s2)
      /\ deletionCalls (trace (snd (main client s)))
         = deletionCalls (trace s)
           ++ deletionsOf (flagHard argv) (deployments r) (projects r)).
Proof.
  intros Hb Ha Htok.
  assert (Hacc : accepted (Js.trim (before ++ token ++ after)) = true).
  { rewrite (trim_surrounded _ _ _ Hb Ha Htok). now apply accepted_spec. }
  split; [exact Hacc|].
  intros Hreach Hres Hfound Hyes Htab Hin.
  assert (Hc : accepted (Js.trim (fst (stdinData c (world s1)))) = true)
    by now rewrite Hin.
  destruct (main_proceeds _ _ _ _ _ Hreach Hres Hfound (or_intror (conj Htab Hc)))
    as (s2 & E & D & _).
  split; [now exists s2|]. now rewrite E, execute_deletions, D.
Qed.

(** C2, as amended. A deployment lookup that is rejected is kept as a
    value, so the deployment batch always has one entry per identifier;
    an entry of either batch that is empty or a typed error matches no
    identifier.  A project lookup that is rejected is not caught: the
    lookups are rejected exactly when a project lookup is, with the error
    of a rejected project lookup, and are fulfilled with one entry per
    identifier otherwise, as they are when every project lookup answers
    with a value (a project or a typed not-found error). *)
Theorem lookup_failures_are_values (ctx : string) ids s :
  ctx <> EmptyString ->
  let deploymentOutcomes := settleAll (deploymentLookups ctx ids) s in
  let deploymentList := map asValue (fst deploymentOutcomes) in
  let projectOutcomes :=
    settleAll (projectByIdOrNameLookups ids) (snd deploymentOutcomes) in
  length deploymentList = length ids
  /\ (forall o, In o (filterMatches ids deploymentList) -> answersTo ids o)
  /\ match collect (fst projectOutcomes) with
     | Resolved projectList =>
         lookup (Some ctx) ids s
         = (Resolved (deploymentList, projectList), snd projectOutcomes)
         /\ length projectList = length ids
         /\ (forall o, In o (filterMatches ids projectList) -> answersTo ids o)
     | Rejected err =>
         lookup (Some ctx) ids s = (Rejected err, snd projectOutcomes)
         /\ In (Rejected err) (fst projectOutcomes)
     end
  /\ ((exists err, In (Rejected err) (fst projectOutcomes))
      <-> exists err, fst (lookup (Some ctx) ids s) = Rejected err)
  /\ ((forall idOrName w,
         exists v w', getProjectByIdOrName c idOrName w = (Resolved v, w')) ->
      exists projectList,
        fst (lookup (Some ctx) ids s) = Resolved (deploymentList, projectList)).
Proof.
  intros Hctx deploymentOutcomes deploymentList projectOutcomes.
  assert (E : lookup (Some ctx) ids
              = PromiseAll2
                  (PromiseAll (map catchAsValue (deploymentLookups ctx ids)))
                  (PromiseAll (projectByIdOrNameLookups ids))).
  { unfold lookup. destruct ids; [reflexivity|].
    destruct ctx; [contradiction|reflexivity]. }
  assert (L : lookup (Some ctx) ids s
              = (match collect (fst projectOutcomes) with
                 | Resolved projectList => Resolved (deploymentList, projectList)
                 | Rejected err => Rejected err
                 end, snd projectOutcomes)).
  { rewrite E. unfold PromiseAll2, PromiseAll. rewrite settleAll_catchAsValue.
    rewrite collect_map_Resolved. fold deploymentOutcomes. fold deploymentList.
    fold projectOutcomes. now destruct projectOutcomes as [os s2]. }
  assert (M : forall l o, In o (filterMatches ids l) -> answersTo ids o).
  { intros l o Ho. apply filterMatches_In in Ho as [_ Ho].
    now apply searchFilter_matches. }
  pose proof (settleAll_length (deploymentLookups ctx ids) s) as Ld.
  pose proof (settleAll_length (projectByIdOrNameLookups ids)
                               (snd deploymentOutcomes)) as Lp.
  fold deploymentOutcomes in Ld. fold projectOutcomes in Lp.
  unfold deploymentLookups in Ld. unfold projectByIdOrNameLookups in Lp.
  rewrite length_map in Ld, Lp.
  split; [unfold deploymentList; now rewrite length_map|].
  split; [apply M|]. split; [|split].
  - destruct (collect (fst projectOutcomes)) as [pl|err] eqn:Hc.
    + split; [exact L|]. split; [|apply M].
      apply collect_Resolved in Hc. rewrite Hc, length_map in Lp. exact Lp.
    + split; [exact L|]. now apply collect_Rejected.
  - rewrite L. simpl. split.
    + intros [err Hin]. destruct (collect_In_Rejected _ _ Hin) as [err' ->].
      now exists err'.
    + intros [err Hr]. destruct (collect (fst projectOutcomes)) as [pl|err'] eqn:Hc;
        [discriminate Hr|]. exists err'. now apply collect_Rejected.
  - intros Hproj. rewrite L. simpl.
    destruct (settleAll_values GetProjectByIdOrName (getProjectByIdOrName c) Hproj
                               ids (snd deploymentOutcomes)) as [vs Hvs].
    fold (projectByIdOrNameLookups ids) in Hvs. fold projectOutcomes in Hvs.
    rewrite Hvs, collect_map_Resolved. now exists vs.
Qed.

(** C3, as amended. In safe mode one lookup of deployments, limited to
    201, is issued for every matched project; the deployments answered
    for the first 201 matched projects are appended to the deployment
    candidates, each with an empty alias list as a placeholder, and the
    project set is cleared. *)
Theorem safe_expansion ds ps s ds' ps' s' :
  expand true ds ps s = (Resolved (ds', ps'), s') ->
  trace s'
  = trace s ++ map (fun project => GetDeploymentsByProjectId (id project) 201 true) ps
  /\ (exists projectDeployments,
        settleAll (projectLookups ps) s = (map Resolved projectDeployments, s')
        /\ length projectDeployments = length ps
        /\ ds' = ds ++ flat_map (map placeholder) (firstn 201 projectDeployments))
  /\ (forall depl, In depl (skipn (length ds) ds') -> aliases depl = [])
  /\ ps' = [].
Proof.
  intros H. apply expand_safe in H as (pds & Hs & L & -> & ->).
  split; [|split; [|split]].
  - pose proof (settleAll_trace
                  (fun project =>
                     call (GetDeploymentsByProjectId (id project) 201 true)
                          (getDeploymentsByProjectId c (id project) 201 true))
                  (fun project => GetDeploymentsByProjectId (id project) 201 true)
                  (fun x s0 => call_trace _ _ s0) ps s) as T.
    fold (projectLookups ps) in T. now rewrite Hs in T.
  - now exists pds.
  - intros d Hd. rewrite skipn_app, skipn_all, Nat.sub_diag in Hd. simpl in Hd.
    apply in_flat_map in Hd as (l & _ & Hd). now apply in_map_iff in Hd as (d0 & <- & _).
  - reflexivity.
Qed.

(** C8, as amended. When help is not requested and the first identifier
    that fails the validator is not the empty string, [main] reports it
    and returns exit code 1 at once: the report is all it does, and no
    request is issued. *)
Theorem invalid_identifier_rejected client argv s invalidName :
  getArgs c (skipn 2 (clientArgv client)) = Some argv ->
  flagHelp argv = false ->
  hd_error (tl (positional argv)) <> Some "help" ->
  find (fun n => negb (isValidName c n)) (tl (positional argv)) = Some invalidName ->
  invalidName <> EmptyString ->
  main client s
  = (Resolved 1,
     {| world := world s;
        trace := trace s ++ [OutputError (invalidArgument invalidName)] |})
  /\ networkCalls (trace (snd (main client s))) = networkCalls (trace s).
Proof.
  intros Ha Hh Hh' Hf Hne.
  assert (E : main client s
              = (Resolved 1,
                 {| world := world s;
                    trace := trace s ++ [OutputError (invalidArgument invalidName)] |})).
  { unfold main. rewrite Ha, Hh.
    destruct (Js.strictEq (hd_error (tl (positional argv))) "help") eqn:Hs.
    { apply strictEq_eq in Hs. contradiction. }
    simpl. destruct (tl (positional argv)) as [|i ids] eqn:Hids; [discriminate|].
    simpl length. simpl Nat.ltb. cbv iota. rewrite Hf. simpl.
    destruct invalidName; [contradiction|]. reflexivity. }
  split; [exact E|]. rewrite E. simpl. unfold networkCalls.
  rewrite filter_app. simpl. apply app_nil_r.
Qed.

(** ** Footprints of the combinators *)

Lemma emits_ret {A} P (a : A) : emits P (ret a).
Proof. intros s. exists []. simpl. now rewrite app_nil_r. Qed.

Lemma emits_throw {A} P err : emits P (@throw A err).
Proof. intros s. exists []. simpl. now rewrite app_nil_r. Qed.

Lemma emits_emit (P : event -> Prop) e : P e -> emits P (emit e).
Proof. intros H s. exists [e]. simpl. auto. Qed.

Lemma emits_emitAll (P : event -> Prop) es : Forall P es -> emits P (emitAll es).
Proof. intros H s. now exists es. Qed.

Lemma emits_call {A} (P : event -> Prop) e (f : W -> outcome A * W) :
  P e -> emits P (call e f).
Proof. intros H s. exists [e]. rewrite call_trace. auto. Qed.

(** The continuation needs its footprint only on the values [m] can be
    fulfilled with. *)
Lemma emits_bind_when {A B} P (m : M A) (k : A -> M B) :
  emits P m ->
  (forall s a s', m s = (Resolved a, s') -> emits P (k a)) ->
  emits P (bind m k).
Proof.
  intros Hm Hk s. unfold bind. destruct (Hm s) as [es [E F]].
  destruct (m s) as [[a|err] s1] eqn:Hms; simpl in E.
  - destruct (Hk s a s1 Hms s1) as [es' [E' F']]. exists (es ++ es').
    rewrite E', E, app_assoc. split; [reflexivity|]. apply Forall_app. now split.
  - exists es. now split.
Qed.

Lemma emits_bind {A B} P (m : M A) (k : A -> M B) :
  emits P m -> (forall a, emits P (k a)) -> emits P (bind m k).
Proof. intros Hm Hk. apply emits_bind_when; auto. Qed.

Lemma emits_catchAsValue P p : emits P p -> emits P (catchAsValue p).
Proof. intros H s. rewrite catchAsValue_trace. apply H. Qed.

Lemma emits_tryFinally {A} P (body : M A) fin :
  emits P body -> emits P fin -> emits P (tryFinally body fin).
Proof.
  intros Hb Hf s. unfold tryFinally. destruct (Hb s) as [es [E F]].
  destruct (body s) as [o s1]. destruct (Hf s1) as [es' [E' F']].
  destruct (fin s1) as [u s2]. simpl in *. exists (es ++ es').
  rewrite E', E, app_assoc. split; [reflexivity|]. apply Forall_app. now split.
Qed.

Lemma emits_PromiseAll {A} P (ps : list (M A)) :
  Forall (emits P) ps -> emits P (PromiseAll ps).
Proof.
  intros H s. rewrite PromiseAll_trace. revert s.
  induction H as [|p rest Hp _ IH]; intros s; simpl.
  - exists []. simpl. now rewrite app_nil_r.
  - destruct (Hp s) as [es [E F]]. destruct (p s) as [o s1].
    destruct (IH s1) as [es' [E' F']]. destruct (settleAll rest s1) as [os s2].
    simpl in *. exists (es ++ es').
    rewrite E', E, app_assoc. split; [reflexivity|]. apply Forall_app. now split.
Qed.

Lemma emits_PromiseAll2 {A B} P (a : M A) (b : M B) :
  emits P a -> emits P b -> emits P (PromiseAll2 a b).
Proof.
  intros Ha Hb s. unfold PromiseAll2. destruct (Ha s) as [es [E F]].
  destruct (a s) as [oa s1]. destruct (Hb s1) as [es' [E' F']].
  destruct (b s1) as [ob s2]. simpl in *. exists (es ++ es').
  rewrite E', E, app_assoc. split; [reflexivity|]. apply Forall_app. now split.
Qed.

Lemma emits_map {A X} P (mk : X -> M A) (xs : list X) :
  (forall x, In x xs -> emits P (mk x)) -> Forall (emits P) (map mk xs).
Proof.
  intros H. induction xs as [|x xs IH]; simpl; constructor.
  - apply H. now left.
  - apply IH. intros y Hy. apply H. now right.
Qed.

Lemma emits_weaken {A} (P Q : event -> Prop) (m : M A) :
  (forall e, P e -> Q e) -> emits P m -> emits Q m.
Proof.
  intros HPQ H s. destruct (H s) as [es [E F]]. exists es. split; [exact E|].
  eapply Forall_impl; eauto.
Qed.

(** What a computation never emits was in the trace before. *)
Lemma emits_never {A} (P : event -> Prop) (m : M A) (s : State W) (e : event) :
  emits P m -> ~ P e -> In e (trace (snd (m s))) -> In e (trace s).
Proof.
  intros H Hn Hin. destruct (H s) as [es [E F]]. rewrite E in Hin.
  apply in_app_or in Hin as [Hin|Hin]; [exact Hin|].
  exfalso. apply Hn. now apply (proj1 (Forall_forall P es) F).
Qed.

(** ** Footprints of the stages *)

Lemma lookup_emits safe ctx ids : emits (resolveEvent safe ids) (lookup ctx ids).
Proof.
  assert (G : forall n,
    emits (resolveEvent safe ids)
      (PromiseAll2
         (PromiseAll (map catchAsValue (deploymentLookups n ids)))
         (PromiseAll (projectByIdOrNameLookups ids)))).
  { intros n. apply emits_PromiseAll2; apply emits_PromiseAll.
    - unfold deploymentLookups. rewrite map_map. apply emits_map.
      intros x Hx. apply emits_catchAsValue. now apply emits_call.
    - apply emits_map. intros x Hx. now apply emits_call. }
  unfold lookup. destruct ids as [|i ids']; [apply G|].
  destruct (Js.truthy ctx); [apply G|apply emits_throw].
Qed.

Lemma expand_emits safe ids ds ps : emits (resolveEvent safe ids) (expand safe ds ps).
Proof.
  unfold expand. destruct safe.
  - apply emits_bind; [|intros; apply emits_ret].
    apply emits_PromiseAll, emits_map. intros x _. apply emits_call.
    simpl. auto.
  - apply emits_ret.
Qed.

Lemma fetchAliases_emits safe ids ds : emits (resolveEvent safe ids) (fetchAliases ds).
Proof.
  unfold fetchAliases. apply emits_PromiseAll, emits_map. intros x _.
  now apply emits_call.
Qed.

Lemma findCandidates_emits safe ctx ids :
  emits (resolveEvent safe ids) (findCandidates safe ctx ids).
Proof.
  unfold findCandidates.
  apply emits_bind; [apply lookup_emits|intros lists].
  apply emits_bind; [apply expand_emits|intros sets].
  apply emits_bind; [apply fetchAliases_emits|intros; apply emits_ret].
Qed.

Lemma resolve_emits safe ids : emits (resolveEvent safe ids) (resolve safe ids).
Proof.
  unfold resolve.
  apply emits_bind; [now apply emits_call|intros ctx].
  apply emits_bind; [now apply emits_emit|intros _].
  apply emits_bind; [|intros; apply emits_ret].
  apply emits_tryFinally; [apply findCandidates_emits|now apply emits_emit].
Qed.

Lemma readStdin_emits (P : event -> Prop) : P StdinData -> emits P readStdin.
Proof.
  intros H s. exists [StdinData]. unfold readStdin.
  destruct (stdinData c (world s)). simpl. auto.
Qed.

Lemma execute_emits argv ids r :
  nothingFound r = false ->
  emits (concludeEvent argv ids r)
        (execute (flagHard argv) (deployments r) (projects r)).
Proof.
  intros Hfound. unfold execute, deletionBatch.
  apply emits_bind.
  - apply emits_PromiseAll, Forall_app. split; apply emits_map; intros x Hx;
      apply emits_call; simpl; eauto.
  - intros _. apply emits_bind; [apply emits_emit; simpl; auto|intros _].
    apply emits_bind; [|intros _; apply emits_bind; [|intros; apply emits_ret]];
      apply emits_emitAll, Forall_forall; intros e He;
      apply in_map_iff in He as (x & <- & Hx); simpl; eauto.
Qed.

Lemma readConfirmation_emits argv ids r :
  flagYes argv = false ->
  nothingFound r = false ->
  emits (concludeEvent argv ids r)
        (readConfirmation (deployments r) (projects r)).
Proof.
  intros Hyes Hfound. unfold readConfirmation.
  apply emits_bind.
  { unfold listDeployments.
    destruct (0 <? length (deployments r)) eqn:L; [|apply emits_ret].
    apply Nat.ltb_lt in L.
    apply emits_bind; [apply emits_emit; simpl; auto|intros _].
    apply emits_bind_when.
    - intros s. exists []. simpl. now rewrite app_nil_r.
    - intros s rows s' H. unfold drawTimes in H. injection H as H _.
      apply times_length in H. apply emits_emit. simpl. auto. }
  intros _. apply emits_bind.
  { apply emits_emitAll, Forall_forall. intros e He.
    apply in_flat_map in He as (d & Hd & He).
    apply in_map_iff in He as (a & <- & Ha). simpl. split; [exact Hyes|].
    exists d, a. auto. }
  intros _. apply emits_bind.
  { destruct (0 <? length (projects r)) eqn:L; [|apply emits_ret].
    apply emits_emit. simpl. apply Nat.ltb_lt in L. auto. }
  intros _. apply emits_bind; [apply emits_emit; simpl; auto|intros _].
  apply emits_bind; [apply readStdin_emits; simpl; auto|intros; apply emits_ret].
Qed.

Lemma conclude_emits argv ids r :
  emits (concludeEvent argv ids r) (conclude argv ids r).
Proof.
  unfold conclude. fold (nothingFound r).
  destruct (nothingFound r) eqn:Hfound.
  - apply emits_bind; [apply emits_emit; simpl; auto|intros; apply emits_ret].
  - apply emits_bind; [apply emits_emit; simpl; auto|intros _].
    apply emits_bind.
    { destruct (200 <? length (deployments r)) eqn:L; [|apply emits_ret].
      apply emits_emit. simpl. apply Nat.ltb_lt in L. auto. }
    intros _. destruct (flagYes argv) eqn:Hyes; [now apply execute_emits|].
    apply emits_bind; [now apply readConfirmation_emits|intros answer].
    destruct (accepted answer); [now apply execute_emits|].
    apply emits_bind; [apply emits_emit; simpl; auto|intros; apply emits_ret].
Qed.

(** ** The ways through [main] *)

(** Either the command line gets past the argument checks, or [main]
    returns 1 or 2 after printing, and 2 only for help. *)
Lemma main_cases client s :
  (exists argv, reachesResolution client argv)
  \/ exists n es,
       main client s
       = (Resolved n, {| world := world s; trace := trace s ++ es |})
       /\ Forall argumentEvent es
       /\ (n = 1 \/ (n = 2 /\ helpRequested client /\ es = [PrintHelp])).
Proof.
  unfold main. destruct (getArgs c (skipn 2 (clientArgv client))) as [argv|] eqn:Ha.
  2:{ right. exists 1, [HandleError]. repeat split; auto. repeat constructor. }
  destruct (flagHelp argv) eqn:Hh.
  { right. exists 2, [PrintHelp]. simpl. repeat split; auto.
    - repeat constructor.
    - right. repeat split; auto. exists argv. auto. }
  destruct (Js.strictEq (hd_error (tl (positional argv))) "help") eqn:Hh'.
  { right. exists 2, [PrintHelp]. simpl. repeat split; auto.
    - repeat constructor.
    - right. repeat split; auto. exists argv. apply strictEq_eq in Hh'. auto. }
  simpl orb. cbv iota.
  destruct (length (tl (positional argv)) <? 1) eqn:Hl.
  { right. eexists 1, [_; _]. unfold bind, emit, ret. simpl.
    rewrite <- app_assoc. simpl. repeat split; auto. repeat constructor. }
  destruct (Js.truthy (find (fun n => negb (isValidName c n)) (tl (positional argv))))
    eqn:Hv.
  { right. eexists 1, [_]. unfold bind, emit, ret. simpl.
    repeat split; auto. repeat constructor. }
  left. exists argv. repeat split; auto.
Qed.

Lemma reachesResolution_argv client argv argv' :
  reachesResolution client argv ->
  getArgs c (skipn 2 (clientArgv client)) = Some argv' ->
  argv' = argv.
Proof. intros (Ha & _) Ha'. congruence. Qed.

(** Every event of a run of [main] is of its footprint. *)
Lemma main_footprint client s :
  exists es,
    trace (snd (main client s)) = trace s ++ es
    /\ Forall (mainEvent client s) es.
Proof.
  destruct (main_cases client s) as [[argv Hreach]|(n & es & E & F & _)].
  - rewrite (main_resolution _ _ _ Hreach). unfold bind.
    destruct (resolve_emits (flagSafe argv) (tl (positional argv)) s) as [es [E F]].
    assert (F' : Forall (mainEvent client s) es).
    { eapply Forall_impl; [|exact F]. intros e He. right. exists argv.
      split; [apply Hreach|]. now left. }
    destruct (resolve (flagSafe argv) (tl (positional argv)) s) as [[r|err] s1] eqn:Hres;
      simpl in E; [|now exists es].
    destruct (conclude_emits argv (tl (positional argv)) r s1) as [es' [E' G]].
    exists (es ++ es'). rewrite E', E, app_assoc. split; [reflexivity|].
    apply Forall_app. split; [exact F'|].
    eapply Forall_impl; [|exact G]. intros e He. right. exists argv.
    split; [apply Hreach|]. right. now exists r, s1.
  - exists es. rewrite E. simpl. split; [reflexivity|].
    eapply Forall_impl; [|exact F]. intros e He. now left.
Qed.

(** What [execute] does, by the outcome of its batch. *)
Lemma execute_run hard ds ps s :
  trace (snd (settleAll (deletionBatch hard ds ps) s))
  = trace s ++ deletionsOf hard ds ps
  /\ match collect (fst (settleAll (deletionBatch hard ds ps) s)) with
     | Resolved _ =>
         execute hard ds ps s
         = (Resolved 0,
            {| world := world (snd (settleAll (deletionBatch hard ds ps) s));
               trace := trace s ++ deletionsOf hard ds ps ++ removalReport ds ps |})
     | Rejected err =>
         execute hard ds ps s
         = (Rejected err, snd (settleAll (deletionBatch hard ds ps) s))
     end.
Proof.
  assert (T : trace (snd (settleAll (deletionBatch hard ds ps) s))
              = trace s ++ deletionsOf hard ds ps).
  { unfold deletionBatch. rewrite settleAll_app. simpl.
    rewrite (settleAll_trace _ (fun project => RemoveProject (id project)))
      by (intros; apply call_trace).
    rewrite (settleAll_trace _ (fun depl => NowRemove (id depl) hard))
      by (intros; apply call_trace).
    unfold deletionsOf. now rewrite app_assoc. }
  split; [exact T|].
  unfold execute, bind, PromiseAll, emit, emitAll, ret.
  destruct (settleAll (deletionBatch hard ds ps) s) as [os s1]. simpl in *.
  destruct (collect os) as [l|err]; [|reflexivity].
  simpl. rewrite T. unfold removalReport.
  repeat rewrite <- app_assoc. reflexivity.
Qed.

(** A run of [main] either issues no deletion request, or is the
    execution of a resolution the user consents to, begun after
    everything else. *)
Lemma main_shape client s :
  (exists es,
     trace (snd (main client s)) = trace s ++ es
     /\ forallb notDeletion es = true
     /\ forall n, fst (main client s) = Resolved n ->
                  n = 1
                  \/ (n = 2 /\ helpRequested client /\ es = [PrintHelp]))
  \/ exists argv r s1 s2 es,
       reachesResolution client argv
       /\ resolve (flagSafe argv) (tl (positional argv)) s = (Resolved r, s1)
       /\ nothingFound r = false
       /\ consents argv r s1
       /\ main client s = execute (flagHard argv) (deployments r) (projects r) s2
       /\ trace s2 = trace s ++ es
       /\ forallb notDeletion es = true.
Proof.
  destruct (main_cases client s) as [[argv Hreach]|(n & es & E & F & Hn)].
  2:{ left. exists es. rewrite E. simpl. repeat split.
      - apply forallb_forall. intros e He.
        apply (proj1 (Forall_forall _ _) F) in He. now destruct e.
      - intros n' Hn'. injection Hn' as <-. exact Hn. }
  destruct (resolve_adds (flagSafe argv) (tl (positional argv)) s) as [es [E F]].
  destruct (resolve (flagSafe argv) (tl (positional argv)) s) as [[r|err] s1] eqn:Hres.
  2:{ left. exists es. rewrite (main_resolution _ _ _ Hreach). unfold bind.
      rewrite Hres. simpl in *. repeat split; auto. discriminate. }
  simpl in E. rewrite (main_resolved _ _ _ _ _ Hreach Hres).
  destruct (nothingFound r) eqn:Hfound.
  { left. rewrite (conclude_nothing _ _ _ _ Hfound). simpl.
    eexists. rewrite E, <- app_assoc. repeat split.
    - rewrite forallb_app, F. reflexivity.
    - intros n Hn. injection Hn as <-. now left. }
  rewrite (conclude_found _ _ _ _ Hfound).
  assert (A : exists ea, trace (announced r s1) = trace s ++ ea
                         /\ forallb notDeletion ea = true).
  { unfold announced. simpl. rewrite E. eexists. rewrite <- app_assoc.
    split; [reflexivity|]. rewrite forallb_app, F. simpl.
    now destruct (200 <? length (deployments r)). }
  destruct A as (ea & Ea & Fa).
  destruct (flagYes argv) eqn:Hyes.
  { right. exists argv, r, s1, (announced r s1), ea.
    split; [exact Hreach|]. split; [exact Hres|]. split; [exact Hfound|].
    split; [now left|]. split; [reflexivity|]. now split. }
  destruct (times (world s1) (deployments r)) as [rows|err] eqn:Htimes.
  2:{ left.
      destruct (main_undrawn client argv s r s1 err Hreach Hres Hfound Hyes Htimes)
        as [Em _].
      rewrite (main_resolved _ _ _ _ _ Hreach Hres), (conclude_found _ _ _ _ Hfound),
        Hyes in Em.
      rewrite Em. cbn [fst snd trace]. rewrite Ea.
      exists (ea ++ [ConfirmDeployments (deployments r)]).
      rewrite <- app_assoc. repeat split.
      - rewrite forallb_app, Fa. reflexivity.
      - intros n Hn. discriminate Hn. }
  assert (Htab : tabulates (world s1) (deployments r)) by now exists rows.
  destruct (readConfirmation_run (deployments r) (projects r) (announced r s1) Htab)
    as [ec [Hrun Fc]].
  change (world (announced r s1)) with (world s1) in Hrun.
  match goal with
  | |- context [bind ?m ?k (announced r s1)] =>
      assert (Em : bind m k (announced r s1)
                   = k (Js.trim (fst (stdinData c (world s1))))
                       {| world := snd (stdinData c (world s1));
                          trace := trace (announced r s1) ++ ec |})
        by (unfold bind at 1; now rewrite Hrun);
      rewrite Em; clear Em
  end.
  cbv beta.
  destruct (accepted (Js.trim (fst (stdinData c (world s1))))) eqn:Hacc.
  - right. exists argv, r, s1.
    exists {| world := snd (stdinData c (world s1));
              trace := trace (announced r s1) ++ ec |}.
    exists (ea ++ ec).
    split; [exact Hreach|]. split; [exact Hres|]. split; [exact Hfound|].
    split; [right; now split|]. split; [reflexivity|]. split.
    + change (trace (announced r s1) ++ ec = trace s ++ ea ++ ec).
      now rewrite Ea, app_assoc.
    + now rewrite forallb_app, Fa, Fc.
  - left. unfold bind, emit, ret. cbn [fst snd trace world]. rewrite Ea.
    exists (ea ++ ec ++ [OutputLog "Canceled"]). repeat rewrite <- app_assoc.
    repeat split.
    + rewrite !forallb_app, Fa, Fc. reflexivity.
    + intros n Hn. injection Hn as <-. now left.
Qed.

(** ** Who [main] is rejected by *)

Lemma blames_ret {A} (a : A) : blames (ret a).
Proof. intros s err s' H. discriminate H. Qed.

Lemma blames_emit e : blames (emit e).
Proof. intros s err s' H. discriminate H. Qed.

Lemma blames_emitAll es : blames (emitAll es).
Proof. intros s err s' H. discriminate H. Qed.

Lemma blames_throw {A} err : culprit err -> blames (@throw A err).
Proof. intros C s err' s' H. injection H as <- _. exact C. Qed.

Lemma blames_call {A} e (f : W -> outcome A * W) :
  (forall w err w', f w = (Rejected err, w') -> culprit err) ->
  blames (call e f).
Proof.
  intros Hf s err s' H. unfold call in H.
  destruct (f (world s)) as [o w'] eqn:E. injection H as -> _.
  now apply (Hf _ _ _ E).
Qed.

Lemma blames_bind {A B} (m : M A) (k : A -> M B) :
  blames m -> (forall a, blames (k a)) -> blames (bind m k).
Proof.
  intros Hm Hk s err s' H. unfold bind in H.
  destruct (m s) as [[a|err0] s1] eqn:E.
  - now apply (Hk a s1 err s').
  - injection H as <- _. now apply (Hm s err0 s1).
Qed.

(** A lookup behind [.catch(err => err)] rejects nothing. *)
Lemma blames_catchAsValue p : blames (catchAsValue p).
Proof.
  intros s err s' H. unfold catchAsValue in H.
  destruct (p s) as [[v|err0] s1]; discriminate H.
Qed.

Lemma blames_tryFinally {A} (body : M A) fin : blames body -> blames (tryFinally body fin).
Proof.
  intros Hb s err s' H. unfold tryFinally in H.
  destruct (body s) as [o s1] eqn:E. destruct (fin s1) as [u s2].
  injection H as -> _. now apply (Hb s err s1).
Qed.

Lemma settleAll_Rejected {A} (ps : list (M A)) s err :
  In (Rejected err) (fst (settleAll ps s)) ->
  exists p s0 s1, In p ps /\ p s0 = (Rejected err, s1).
Proof.
  revert s; induction ps as [|p rest IH]; intros s; simpl; [contradiction|].
  destruct (p s) as [o s1] eqn:E. specialize (IH s1).
  destruct (settleAll rest s1) as [os s2]. simpl in *.
  intros [->|H].
  - exists p, s, s1. split; [now left|exact E].
  - destruct (IH H) as (q & s0 & s3 & Hq & Eq). exists q, s0, s3.
    split; [now right|exact Eq].
Qed.

Lemma blames_PromiseAll {A} (ps : list (M A)) :
  Forall blames ps -> blames (PromiseAll ps).
Proof.
  intros H s err s' E. unfold PromiseAll in E.
  destruct (settleAll ps s) as [os s1] eqn:Es. injection E as E _.
  apply collect_Rejected in E.
  assert (E' : In (Rejected err) (fst (settleAll ps s))) by now rewrite Es.
  apply settleAll_Rejected in E' as (p & s0 & s2 & Hp & Ep).
  now apply (proj1 (Forall_forall _ _) H p Hp s0 err s2).
Qed.

Lemma blames_PromiseAll2 {A B} (a : M A) (b : M B) :
  blames a -> blames b -> blames (PromiseAll2 a b).
Proof.
  intros Ha Hb s err s' H. unfold PromiseAll2 in H.
  destruct (a s) as [oa s1] eqn:Ea. destruct (b s1) as [ob s2] eqn:Eb.
  destruct oa as [x|e1].
  - destruct ob as [y|e2]; [discriminate|]. injection H as <- _.
    now apply (Hb s1 e2 s2).
  - injection H as <- _. now apply (Ha s e1 s1).
Qed.

Lemma blames_map {A X} (mk : X -> M A) (xs : list X) :
  (forall x, blames (mk x)) -> Forall blames (map mk xs).
Proof. intros H. induction xs; simpl; constructor; auto. Qed.

Lemma resolve_blames safe ids : blames (resolve safe ids).
Proof.
  unfold resolve.
  apply blames_bind.
  { apply blames_call. intros w err w' E. do 2 right. left. now exists w, w'. }
  intros ctx. apply blames_bind; [apply blames_emit|intros _].
  apply blames_bind; [|intros; apply blames_ret].
  apply blames_tryFinally. unfold findCandidates.
  apply blames_bind.
  { assert (G : forall n,
      blames (PromiseAll2
                (PromiseAll (map catchAsValue (deploymentLookups n ids)))
                (PromiseAll (projectByIdOrNameLookups ids)))).
    { intros n. apply blames_PromiseAll2; apply blames_PromiseAll.
      - apply blames_map. intros p. apply blames_catchAsValue.
      - apply blames_map. intros x. apply blames_call.
        intros w err w' E. do 3 right. left. now exists x, w, w'. }
    unfold lookup. destruct ids as [|i ids']; [apply G|].
    destruct (Js.truthy ctx); [apply G|]. apply blames_throw. now left. }
  intros lists. apply blames_bind.
  { unfold expand. destruct safe; [|apply blames_ret].
    apply blames_bind; [|intros; apply blames_ret].
    apply blames_PromiseAll, blames_map. intros x. apply blames_call.
    intros w err w' E. do 4 right. left. now exists (id x), 201, true, w, w'. }
  intros sets. apply blames_bind; [|intros; apply blames_ret].
  apply blames_PromiseAll, blames_map. intros x. apply blames_call.
  intros w err w' E. do 5 right. left. now exists (id x), w, w'.
Qed.

Lemma execute_blames hard ds ps : blames (execute hard ds ps).
Proof.
  unfold execute, deletionBatch.
  apply blames_bind.
  - apply blames_PromiseAll, Forall_app. split; apply blames_map; intros x;
      apply blames_call; intros w err w' E.
    + do 6 right. left. now exists (id x), hard, w, w'.
    + do 7 right. now exists (id x), w, w'.
  - intros _. apply blames_bind; [apply blames_emit|intros _].
    apply blames_bind; [apply blames_emitAll|intros _].
    apply blames_bind; [apply blames_emitAll|intros _]. apply blames_ret.
Qed.

Lemma times_Rejected w ds err :
  times w ds = Rejected err -> exists n, ms c n = Rejected err.
Proof.
  induction ds as [|d ds IH]; simpl; [discriminate|].
  destruct (ms c (age w d)) as [t|err0] eqn:E.
  - destruct (times w ds) as [l|err1]; [discriminate|].
    intros H. injection H as <-. now apply IH.
  - intros H. injection H as <-. now exists (age w d).
Qed.

Lemma readConfirmation_blames ds ps : blames (readConfirmation ds ps).
Proof.
  intros s err s' H.
  destruct (times (world s) ds) as [rows|err0] eqn:Ht.
  - destruct (readConfirmation_run ds ps s) as [es [E _]]; [now exists rows|].
    rewrite E in H. discriminate H.
  - rewrite (readConfirmation_throws _ _ _ _ Ht) in H. injection H as <- _.
    right. left. now apply (times_Rejected _ _ _ Ht).
Qed.

Lemma conclude_blames argv ids r : blames (conclude argv ids r).
Proof.
  unfold conclude.
  destruct ((length (deployments r) =? 0) && (length (projects r) =? 0)).
  - apply blames_bind; [apply blames_emit|intros; apply blames_ret].
  - apply blames_bind; [apply blames_emit|intros _].
    apply blames_bind.
    { destruct (200 <? length (deployments r)); [apply blames_emit|apply blames_ret]. }
    intros _. destruct (flagYes argv); [apply execute_blames|].
    apply blames_bind; [apply readConfirmation_blames|intros answer].
    destruct (accepted answer); [apply execute_blames|].
    apply blames_bind; [apply blames_emit|intros; apply blames_ret].
Qed.

(** ** Further properties of the command *)

Lemma PromiseAll2_trace {A B} (a : M A) (b : M B) (s : State W) :
  trace (snd (PromiseAll2 a b s)) = trace (snd (b (snd (a s)))).
Proof.
  unfold PromiseAll2. destruct (a s) as [oa s1]. simpl.
  now destruct (b s1) as [ob s2].
Qed.

(** X1. The lookup phase issues its requests by position: one deployment
    lookup per identifier, in order, then one project lookup per
    identifier, in order, whatever any of them answers. *)
Theorem lookup_requests_are_positional (ctx : string) ids s :
  ctx <> EmptyString ->
  trace (snd (lookup (Some ctx) ids s))
  = trace s ++ map (GetDeployment ctx) ids ++ map GetProjectByIdOrName ids.
Proof.
  intros Hctx.
  assert (E : lookup (Some ctx) ids
              = PromiseAll2
                  (PromiseAll (map catchAsValue (deploymentLookups ctx ids)))
                  (PromiseAll (projectByIdOrNameLookups ids))).
  { unfold lookup. destruct ids; [reflexivity|].
    destruct ctx; [contradiction|reflexivity]. }
  rewrite E, PromiseAll2_trace, !PromiseAll_trace.
  unfold projectByIdOrNameLookups.
  rewrite (settleAll_trace _ GetProjectByIdOrName) by (intros; apply call_trace).
  rewrite settleAll_catchAsValue. simpl. unfold deploymentLookups.
  rewrite (settleAll_trace _ (GetDeployment ctx)) by (intros; apply call_trace).
  now rewrite app_assoc.
Qed.

(** X2. When the scope answers without a context name, [main] is
    rejected with the error [Context name is not defined]: the spinner is
    started and stopped, and no lookup is issued. *)
Theorem missing_context_aborts_before_lookup client argv s ctx w :
  reachesResolution client argv ->
  getScope c (world s) = (Resolved ctx, w) ->
  Js.truthy ctx = false ->
  main client s
  = (Rejected contextNameError,
     {| world := w;
        trace := trace s
                 ++ [GetScope; Spinner (tl (positional argv)) ctx; StopSpinner] |}).
Proof.
  intros Hreach Hg Hctx. rewrite (main_resolution _ _ _ Hreach).
  destruct Hreach as (_ & _ & _ & Hl & _).
  destruct (tl (positional argv)) as [|i ids] eqn:Hids; [discriminate Hl|].
  unfold bind, resolve, bind, call, emit, tryFinally, findCandidates, bind, lookup.
  rewrite Hg. simpl. rewrite Hctx. simpl. now rewrite <- !app_assoc.
Qed.

(** X3. Once the scope has answered, the resolution starts the spinner and
    always stops it: between the two it only issues requests, and the
    stop is its last event, whether the resolution is fulfilled or
    rejected. *)
Theorem spinner_is_always_stopped safe ids s ctx w :
  getScope c (world s) = (Resolved ctx, w) ->
  exists requests,
    trace (snd (resolve safe ids s))
    = trace s ++ [GetScope; Spinner ids ctx] ++ requests ++ [StopSpinner]
    /\ Forall (fun e => isNetworkCall e = true) requests.
Proof.
  intros Hg.
  assert (F : emits (fun e => isNetworkCall e = true /\ e <> GetScope)
                    (findCandidates safe ctx ids)).
  { unfold findCandidates.
    apply emits_bind.
    { assert (G : forall n,
        emits (fun e => isNetworkCall e = true /\ e <> GetScope)
          (PromiseAll2
             (PromiseAll (map catchAsValue (deploymentLookups n ids)))
             (PromiseAll (projectByIdOrNameLookups ids)))).
      { intros n. apply emits_PromiseAll2; apply emits_PromiseAll.
        - unfold deploymentLookups. rewrite map_map. apply emits_map.
          intros x _. apply emits_catchAsValue. apply emits_call.
          split; [reflexivity|discriminate].
        - apply emits_map. intros x _. apply emits_call.
          split; [reflexivity|discriminate]. }
      unfold lookup. destruct ids as [|i ids']; [apply G|].
      destruct (Js.truthy ctx); [apply G|apply emits_throw]. }
    intros lists. apply emits_bind.
    { unfold expand. destruct safe; [|apply emits_ret].
      apply emits_bind; [|intros; apply emits_ret].
      apply emits_PromiseAll, emits_map. intros x _. apply emits_call.
      split; [reflexivity|discriminate]. }
    intros sets. apply emits_bind; [|intros; apply emits_ret].
    apply emits_PromiseAll, emits_map. intros x _. apply emits_call.
    split; [reflexivity|discriminate]. }
  destruct (F (scoped s ids ctx w)) as [es [E Fes]]. exists es. split.
  - unfold resolve, bind at 1, call. rewrite Hg.
    unfold bind at 1, emit. simpl. rewrite <- app_assoc. simpl.
    fold (scoped s ids ctx w). unfold bind, tryFinally, emit.
    destruct (findCandidates safe ctx ids (scoped s ids ctx w)) as [[found|err] s1];
      simpl in *; rewrite E; unfold scoped; simpl;
      now repeat rewrite <- app_assoc.
  - eapply Forall_impl; [|exact Fes]. now intros e [He _].
Qed.

(** X4. [main] issues a deletion request only for a resolution the user
    consents to (with [--yes], or with an accepted answer to a
    confirmation that is drawn): in any run either no
    deletion request is issued at all, or the requests issued are exactly
    those of the resolved sets. *)
Theorem deletions_need_consent client s :
  deletionCalls (trace (snd (main client s))) = deletionCalls (trace s)
  \/ exists argv r s1,
       reachesResolution client argv
       /\ resolve (flagSafe argv) (tl (positional argv)) s = (Resolved r, s1)
       /\ nothingFound r = false
       /\ consents argv r s1
       /\ deletionCalls (trace (snd (main client s)))
          = deletionCalls (trace s)
            ++ deletionsOf (flagHard argv) (deployments r) (projects r).
Proof.
  destruct (main_shape client s)
    as [(es & E & F & _)|(argv & r & s1 & s2 & es & Hreach & Hres & Hf & Hc & Em & E & F)].
  - left. rewrite E. now apply deletionCalls_adds.
  - right. exists argv, r, s1.
    split; [exact Hreach|]. split; [exact Hres|]. split; [exact Hf|].
    split; [exact Hc|].
    rewrite Em, execute_deletions, E. f_equal. now apply deletionCalls_adds.
Qed.

(** X5. What the exit code of [main] means.  It is 2 only when help is
    requested, and then the help is all that is printed; with 1 no
    deletion request has been issued; with 0 the run ends with the
    deletion requests of every resolved deployment and project, followed
    by the report of their removal. *)
Theorem exit_code_meaning client s n s' :
  main client s = (Resolved n, s') ->
  (n = 2 /\ helpRequested client /\ trace s' = trace s ++ [PrintHelp])
  \/ (n = 1 /\ deletionCalls (trace s') = deletionCalls (trace s))
  \/ (n = 0
      /\ exists argv r s1 before,
           reachesResolution client argv
           /\ resolve (flagSafe argv) (tl (positional argv)) s = (Resolved r, s1)
           /\ nothingFound r = false
           /\ consents argv r s1
           /\ forallb notDeletion before = true
           /\ trace s'
              = trace s ++ before
                ++ deletionsOf (flagHard argv) (deployments r) (projects r)
                ++ removalReport (deployments r) (projects r)).
Proof.
  intros Hm.
  destruct (main_shape client s)
    as [(es & E & F & Hn)|(argv & r & s1 & s2 & es & Hreach & Hres & Hf & Hc & Em & E & F)].
  - rewrite Hm in E, Hn. simpl in E, Hn.
    destruct (Hn n eq_refl) as [->|(-> & Hh & ->)].
    + right. left. split; [reflexivity|]. rewrite E. now apply deletionCalls_adds.
    + left. auto.
  - right. right. rewrite Em in Hm.
    destruct (execute_run (flagHard argv) (deployments r) (projects r) s2) as [_ Hx].
    destruct (collect _) as [l|err]; rewrite Hx in Hm; [|discriminate Hm].
    injection Hm as <- <-. split; [reflexivity|].
    exists argv, r, s1, es.
    split; [exact Hreach|]. split; [exact Hres|]. split; [exact Hf|].
    split; [exact Hc|]. split; [exact F|].
    simpl. now rewrite E, <- app_assoc.
Qed.

(** X6. The deletion requests come last: any run of [main] is a stretch
    without deletion request, then deletion requests only, then events
    that are no request at all.  No lookup follows a deletion. *)
Theorem deletions_come_last client s :
  exists before deletions after,
    trace (snd (main client s)) = trace s ++ before ++ deletions ++ after
    /\ forallb notDeletion before = true
    /\ forallb isDeletionCall deletions = true
    /\ forallb (fun e => negb (isNetworkCall e)) after = true.
Proof.
  destruct (main_shape client s)
    as [(es & E & F & _)|(argv & r & s1 & s2 & es & Hreach & Hres & Hf & Hc & Em & E & F)].
  - exists es, [], []. rewrite E. simpl. now rewrite app_nil_r.
  - destruct (execute_run (flagHard argv) (deployments r) (projects r) s2) as [T Hx].
    assert (D : forallb isDeletionCall
                  (deletionsOf (flagHard argv) (deployments r) (projects r)) = true).
    { unfold deletionsOf. rewrite forallb_app. apply andb_true_iff.
      split; apply forallb_forall; intros e He;
        apply in_map_iff in He as (x & <- & _); reflexivity. }
    rewrite Em. destruct (collect _) as [l|err]; rewrite Hx.
    + exists es, (deletionsOf (flagHard argv) (deployments r) (projects r)),
        (removalReport (deployments r) (projects r)).
      simpl. rewrite E, <- app_assoc. repeat split; auto.
      unfold removalReport. simpl. rewrite forallb_app. apply andb_true_iff.
      split; apply forallb_forall; intros e He;
        apply in_map_iff in He as (x & <- & _); reflexivity.
    + exists es, (deletionsOf (flagHard argv) (deployments r) (projects r)), [].
      cbn [snd]. rewrite T, E, app_nil_r, <- app_assoc. repeat split; auto.
Qed.

(** X7. The execution is all or nothing in what it reports, not in what it
    does: every deletion request is issued, deployments first; when all
    are fulfilled the result is 0 and the removal is reported; when one is
    rejected the execution is rejected with the error of a rejected
    request and nothing is reported. *)
Theorem execution_is_all_or_nothing hard ds ps s :
  match execute hard ds ps s with
  | (Resolved n, s') =>
      n = 0
      /\ trace s' = trace s ++ deletionsOf hard ds ps ++ removalReport ds ps
      /\ forall o, In o (fst (settleAll (deletionBatch hard ds ps) s)) ->
                   o = Resolved tt
  | (Rejected err, s') =>
      trace s' = trace s ++ deletionsOf hard ds ps
      /\ In (Rejected err) (fst (settleAll (deletionBatch hard ds ps) s))
  end.
Proof.
  destruct (execute_run hard ds ps s) as [T Hx].
  destruct (collect (fst (settleAll (deletionBatch hard ds ps) s))) as [l|err] eqn:Hc;
    rewrite Hx.
  - repeat split; auto. intros o Ho. apply collect_Resolved in Hc.
    rewrite Hc in Ho. apply in_map_iff in Ho as ([] & <- & _). reflexivity.
  - split; [exact T|]. now apply collect_Rejected.
Qed.

Lemma filterByAliases_unsafe (ds : list JsObject) (als : list (list Alias)) :
  filterByAliases false ds als
  = map (fun ca => setAliases (snd ca) (fst ca)) (combine ds als).
Proof.
  revert als; induction ds as [|d ds IH]; intros [|a als]; simpl; try reflexivity.
  now rewrite IH.
Qed.

(** X8. Without safe mode the aliases do not decide what is removed: the
    final deployments are the candidates, all of them and in order, each
    with the alias list fetched for it. *)
Theorem aliases_are_attached_without_safe ids s r s' :
  resolve false ids s = (Resolved r, s') ->
  exists ctx w s2 candidates ps aliasLists,
    getScope c (world s) = (Resolved ctx, w)
    /\ findCandidates false ctx ids (scoped s ids ctx w)
       = (Resolved ((candidates, ps), aliasLists), s2)
    /\ length aliasLists = length candidates
    /\ deployments r
       = map (fun ca => setAliases (snd ca) (fst ca)) (combine candidates aliasLists)
    /\ length (deployments r) = length candidates.
Proof.
  intros H.
  apply resolve_Resolved in H as (ctx & w & s2 & ds & ps & als & Hg & Hc & _ & ->).
  exists ctx, w, s2, ds, ps, als.
  pose proof Hc as Hc'.
  apply findCandidates_Resolved in Hc' as (dl & pl & sa & sb & _ & _ & _ & L).
  simpl. rewrite filterByAliases_unsafe. repeat split; auto.
  rewrite length_map, length_combine, L. apply Nat.min_id.
Qed.

(** In safe mode a fulfilled resolution has no project and no alias. *)
Lemma safe_resolution_shape ids s r s' :
  resolve true ids s = (Resolved r, s') ->
  projects r = [] /\ Forall (fun depl => aliases depl = []) (deployments r).
Proof.
  intros H.
  apply resolve_Resolved in H as (ctx & w & s2 & ds & ps & als & _ & Hc & _ & ->).
  apply findCandidates_Resolved in Hc as (dl & pl & sa & sb & _ & He & _).
  apply expand_safe in He as (pds & _ & _ & _ & ->). simpl. split; [reflexivity|].
  rewrite filterByAliases_safe. apply Forall_forall. intros d Hd.
  now apply in_map_iff in Hd as [ca [<- _]].
Qed.

(** An event that a run of [main] adds comes from the argument checks,
    from the resolution or from what follows it. *)
Lemma main_event_cases client argv s es e :
  getArgs c (skipn 2 (clientArgv client)) = Some argv ->
  trace (snd (main client s)) = trace s ++ es ->
  In e es ->
  argumentEvent e
  \/ resolveEvent (flagSafe argv) (tl (positional argv)) e
  \/ exists r s1,
       resolve (flagSafe argv) (tl (positional argv)) s = (Resolved r, s1)
       /\ concludeEvent argv (tl (positional argv)) r e.
Proof.
  intros Ha Hes Hin. destruct (main_footprint client s) as [es' [E F]].
  rewrite E in Hes. apply app_inv_head in Hes. subst es'.
  apply (proj1 (Forall_forall _ _) F) in Hin.
  destruct Hin as [He|(argv' & Ha' & He)]; [now left|].
  assert (argv' = argv) by congruence. subst argv'. right. exact He.
Qed.

(** X9. In safe mode [main] never asks for the removal of a project. *)
Theorem safe_mode_never_removes_a_project client argv s es projectId :
  getArgs c (skipn 2 (clientArgv client)) = Some argv ->
  flagSafe argv = true ->
  trace (snd (main client s)) = trace s ++ es ->
  ~ In (RemoveProject projectId) es.
Proof.
  intros Ha Hsafe Hes Hin.
  destruct (main_event_cases _ _ _ _ _ Ha Hes Hin) as [H|[H|(r & s1 & Hres & H)]];
    try contradiction.
  rewrite Hsafe in Hres. apply safe_resolution_shape in Hres as [Hp _].
  simpl in H. destruct H as (p & Hin' & _). rewrite Hp in Hin'. contradiction.
Qed.

(** X10. In safe mode the confirmation never warns that an alias will be
    removed: what is left to confirm has none. *)
Theorem safe_mode_confirms_without_alias_warning
  client argv s es aliasName deploymentUrl :
  getArgs c (skipn 2 (clientArgv client)) = Some argv ->
  flagSafe argv = true ->
  trace (snd (main client s)) = trace s ++ es ->
  ~ In (WarnAlias aliasName deploymentUrl) es.
Proof.
  intros Ha Hsafe Hes Hin.
  destruct (main_event_cases _ _ _ _ _ Ha Hes Hin) as [H|[H|(r & s1 & Hres & H)]];
    try contradiction.
  rewrite Hsafe in Hres. apply safe_resolution_shape in Hres as [_ Hd].
  simpl in H. destruct H as (_ & d & a & Hin' & Ha' & _).
  apply (proj1 (Forall_forall _ _) Hd) in Hin'. rewrite Hin' in Ha'. contradiction.
Qed.

(** X11. With [--yes] the confirmation is skipped altogether: [main] lists
    nothing to confirm, asks nothing, reads nothing from standard input
    and never logs [Canceled]. *)
Theorem yes_skips_the_confirmation client argv s es :
  getArgs c (skipn 2 (clientArgv client)) = Some argv ->
  flagYes argv = true ->
  trace (snd (main client s)) = trace s ++ es ->
  Forall (fun e =>
            match e with
            | ConfirmDeployments _ | DeploymentTable _ _ | WarnAlias _ _
            | ConfirmProjects _ | AreYouSure | StdinData => False
            | OutputLog text => text <> "Canceled"
            | _ => True
            end) es.
Proof.
  intros Ha Hyes Hes. apply Forall_forall. intros e Hin.
  destruct (main_event_cases _ _ _ _ _ Ha Hes Hin) as [H|[H|(r & s1 & Hres & H)]];
    destruct e; simpl in *; try contradiction; auto;
    try (destruct H as [Hy _]; congruence).
  intros ->. destruct H as [[Ht _]|[_ [Hy _]]]; [|congruence].
  unfold couldNotFind in Ht. destruct (flagSafe argv); discriminate Ht.
Qed.

(** X12. [main] looks up nothing but what it was asked for: every
    deployment lookup and every project lookup it issues is for one of the
    identifiers of the command line. *)
Theorem lookups_are_for_requested_identifiers client argv s es i :
  getArgs c (skipn 2 (clientArgv client)) = Some argv ->
  trace (snd (main client s)) = trace s ++ es ->
  (exists ctx, In (GetDeployment ctx i) es) \/ In (GetProjectByIdOrName i) es ->
  In i (tl (positional argv)).
Proof.
  intros Ha Hes [[ctx Hin]|Hin];
    destruct (main_event_cases _ _ _ _ _ Ha Hes Hin) as [H|[H|(r & s1 & Hres & H)]];
    simpl in H; try contradiction; exact H.
Qed.

(** X13. The deployments of a project are listed in safe mode only, and
    then with the limit of 201 and continuation. *)
Theorem project_listings_are_for_safe_mode
  client argv s es projectId max continue :
  getArgs c (skipn 2 (clientArgv client)) = Some argv ->
  trace (snd (main client s)) = trace s ++ es ->
  In (GetDeploymentsByProjectId projectId max continue) es ->
  flagSafe argv = true /\ max = 201 /\ continue = true.
Proof.
  intros Ha Hes Hin.
  destruct (main_event_cases _ _ _ _ _ Ha Hes Hin) as [H|[H|(r & s1 & Hres & H)]];
    simpl in H; try contradiction; exact H.
Qed.

(** X14. A command line that does not get past the argument checks costs
    nothing: [main] returns 1 or 2 after printing an error or the help,
    and leaves the world as it was, without a single request. *)
Theorem argument_checks_are_offline client s :
  (forall argv, ~ reachesResolution client argv) ->
  exists n es,
    main client s = (Resolved n, {| world := world s; trace := trace s ++ es |})
    /\ (n = 1 \/ n = 2)
    /\ Forall argumentEvent es
    /\ networkCalls (trace s ++ es) = networkCalls (trace s).
Proof.
  intros Hno. destruct (main_cases client s) as [[argv Hreach]|(n & es & E & F & Hn)].
  - now destruct (Hno argv).
  - exists n, es. split; [exact E|]. split; [|split; [exact F|]].
    + destruct Hn as [->|(-> & _)]; auto.
    + unfold networkCalls. rewrite filter_app.
      assert (X : filter isNetworkCall es = []).
      { clear -F. induction F as [|e es He _ IH]; [reflexivity|].
        simpl. destruct e; simpl in He; try contradiction; exact IH. }
      now rewrite X, app_nil_r.
Qed.

(** X15. [main] is rejected only by a missing context name, by the
    rejection of the scope, of a project lookup, of a listing of the
    deployments of a project, of an alias lookup or of a deletion, or by
    [ms] throwing while the confirmation is drawn: it is rejected with the
    error of one of these.  A rejected deployment lookup is not among the
    causes. *)
Theorem rejection_has_a_culprit client s err s' :
  main client s = (Rejected err, s') -> culprit err.
Proof.
  intros Hm. destruct (main_cases client s) as [[argv Hreach]|(n & es & E & _)].
  - rewrite (main_resolution _ _ _ Hreach) in Hm.
    exact (blames_bind _ _ (resolve_blames _ _)
             (fun r => conclude_blames argv _ r) s err s' Hm).
  - rewrite E in Hm. discriminate Hm.
Qed.

(** X16. The summary that [main] prints never counts zero items: when it
    announces what was found or reports what was removed, at least one of
    the two sets is non-empty, and [deploymentsAndProjects] then names
    the deployments alone, the projects alone, or both, each with a
    positive count. *)
Theorem summary_never_counts_zero
  (plural : string -> nat -> bool -> string) (conjunction : string)
  client argv s es ds ps :
  getArgs c (skipn 2 (clientArgv client)) = Some argv ->
  trace (snd (main client s)) = trace s ++ es ->
  (exists ctx, In (LogFound ds ps ctx) es) \/ In (Success ds ps) es ->
  (length ps = 0 /\ 0 < length ds
   /\ deploymentsAndProjects plural ds ps conjunction
      = plural "deployment" (length ds) true)
  \/ (length ds = 0 /\ 0 < length ps
      /\ deploymentsAndProjects plural ds ps conjunction
         = plural "project" (length ps) true)
  \/ (0 < length ds /\ 0 < length ps
      /\ deploymentsAndProjects plural ds ps conjunction
         = (plural "deployment" (length ds) true ++ " " ++ conjunction ++ " "
            ++ plural "project" (length ps) true)%string).
Proof.
  intros Ha Hes He.
  assert (Hf : (length ds =? 0) && (length ps =? 0) = false).
  { destruct He as [[ctx Hin]|Hin];
      destruct (main_event_cases _ _ _ _ _ Ha Hes Hin) as [H|[H|(r & s1 & Hres & H)]];
      simpl in H; try contradiction.
    - destruct H as (-> & -> & _ & Hf). exact Hf.
    - destruct H as (-> & -> & Hf). exact Hf. }
  unfold deploymentsAndProjects.
  destruct (length ps) as [|m] eqn:Lp; destruct (length ds) as [|n] eqn:Ld;
    simpl in *; try discriminate.
  - left. repeat split; auto. lia.
  - right. left. repeat split; auto. lia.
  - right. right. repeat split; auto; lia.
Qed.

Lemma answersTo_setAliases ids a d : answersTo ids d -> answersTo ids (setAliases a d).
Proof. intros H. exact H. Qed.

(** X17. Without safe mode nothing is removed that was not named: every
    deployment and every project of the final removal sets is an object
    that is no instance of [NowError] and whose id, name or URL is one of
    the identifiers of the command line. *)
Theorem final_sets_answer_to_identifiers ids s r s' :
  resolve false ids s = (Resolved r, s') ->
  Forall (answersTo ids) (deployments r) /\ Forall (answersTo ids) (projects r).
Proof.
  intros H.
  apply resolve_Resolved in H as (ctx & w & s2 & ds & ps & als & _ & Hc & _ & ->).
  apply findCandidates_Resolved in Hc as (dl & pl & sa & sb & _ & He & _ & _).
  rewrite expand_unsafe in He. injection He as <- <- _. simpl. split.
  - rewrite filterByAliases_unsafe. apply Forall_forall. intros d Hd.
    apply in_map_iff in Hd as ([d0 a] & <- & Hd). apply in_combine_l in Hd.
    apply filter_In in Hd as [Hd _]. apply filterMatches_In in Hd as [_ Hd].
    apply answersTo_setAliases. now apply searchFilter_matches.
  - apply Forall_forall. intros p Hp. apply filterMatches_In in Hp as [_ Hp].
    now apply searchFilter_matches.
Qed.

Lemma times_NaN w ds depl err0 :
  In depl ds -> createdAt depl = None -> ms c None = Rejected err0 ->
  exists err, times w ds = Rejected err.
Proof.
  intros Hin Hc Hms. induction ds as [|d ds IH]; [contradiction|]. simpl.
  destruct Hin as [->|Hin].
  - unfold age. rewrite Hc, Hms. now exists err0.
  - destruct (ms c (age w d)) as [t|err]; [|now exists err].
    destruct (IH Hin) as [err ->]. now exists err.
Qed.

(** X18. A confirmation that cannot be drawn rejects the command: when
    [ms] throws for [NaN] and a deployment to confirm has no [createdAt]
    (as an error kept by [.catch] has none), [main] is rejected with an
    error thrown by [ms], after the heading of the table and before the
    prompt; nothing is read from standard input and nothing is deleted. *)
Theorem undrawn_confirmation_rejects client argv s r s1 depl err0 :
  reachesResolution client argv ->
  resolve (flagSafe argv) (tl (positional argv)) s = (Resolved r, s1) ->
  flagYes argv = false ->
  In depl (deployments r) ->
  createdAt depl = None ->
  ms c None = Rejected err0 ->
  exists err,
    main client s
    = (Rejected err,
       {| world := world s1;
          trace := trace (announced r s1) ++ [ConfirmDeployments (deployments r)] |})
    /\ (exists n, ms c n = Rejected err)
    /\ deletionCalls (trace (snd (main client s))) = deletionCalls (trace s).
Proof.
  intros Hreach Hres Hyes Hin Hc Hms.
  assert (Hfound : nothingFound r = false).
  { unfold nothingFound. destruct (deployments r); [contradiction|reflexivity]. }
  destruct (times_NaN (world s1) _ _ _ Hin Hc Hms) as [err Ht].
  destruct (main_undrawn _ _ _ _ _ _ Hreach Hres Hfound Hyes Ht) as [E D].
  exists err. split; [exact E|]. split; [now apply (times_Rejected _ _ _ Ht)|].
  rewrite E. exact D.
Qed.

End Remove.

(** ** The properties on the scenarios *)

(** [vercel rm --safe abc123 my-app]: the project is expanded, its
    aliased deployment [d1] is dropped, and what remains carries no alias. *)
Lemma safe_removal_set_alias_free_witness :
  let run := resolve unit (cli "n") true ["abc123"; "my-app"] start in
  let r := {| contextName := Some "me";
              deployments := [deployment "abc123" "site" "site.vercel.app";
                              deployment "d2" "my-app" "my-app-2.vercel.app"];
              projects := [] |} in
  run = (Resolved r, snd run)
  /\ Forall (fun depl => aliases depl = []) (deployments r).
Proof.
  intros run r.
  assert (H : run = (Resolved r, snd run)) by (vm_compute; reflexivity).
  split; [exact H|].
  exact (proj1 (safe_removal_set_alias_free unit (cli "n") _ _ _ _ H)).
Defined.

Lemma safe_projects_empty_witness :
  let run := resolve unit (cli "n") true ["my-app"; "abc123"] start in
  let r := {| contextName := Some "me";
              deployments := [deployment "abc123" "site" "site.vercel.app";
                              deployment "d2" "my-app" "my-app-2.vercel.app"];
              projects := [] |} in
  run = (Resolved r, snd run) /\ projects r = [].
Proof.
  intros run r.
  assert (H : run = (Resolved r, snd run)) by (vm_compute; reflexivity).
  split; [exact H|].
  exact (safe_projects_empty unit (cli "n") _ _ _ _ H).
Defined.

(** [vercel rm abc123 d1 my-app]: [d1] is a deployment of [my-app] and is
    left to the removal of the project. *)
Lemma no_double_removal_witness :
  let run := resolve unit (cli "n") false ["abc123"; "d1"; "my-app"] start in
  let r := {| contextName := Some "me";
              deployments := [deployment "abc123" "site" "site.vercel.app"];
              projects := [project "prj_1" "my-app"] |} in
  run = (Resolved r, snd run)
  /\ Forall (fun depl => Forall (fun p => name p <> name depl) (projects r))
            (deployments r).
Proof.
  intros run r.
  assert (H : run = (Resolved r, snd run)) by (vm_compute; reflexivity).
  split; [exact H|].
  exact (proj1 (no_double_removal unit (cli "n") _ _ _ _ H)).
Defined.

(** [vercel rm --safe nothing]. *)
Lemma nothing_found_exit_witness :
  let client := vercelRm ["--safe"; "nothing"] in
  let argv := mkArgv false false false true ["rm"; "nothing"] in
  let run := resolve unit (cli "n") true ["nothing"] start in
  reachesResolution unit (cli "n") client argv
  /\ run = (Resolved (mkResolution (Some "me") [] []), snd run)
  /\ fst (main unit (cli "n") client start) = Resolved 1
  /\ deletionCalls (trace (snd (main unit (cli "n") client start))) = [].
Proof.
  intros client argv run.
  assert (R : reachesResolution unit (cli "n") client argv)
    by (repeat split; vm_compute; reflexivity).
  assert (H : run = (Resolved (mkResolution (Some "me") [] []), snd run))
    by (vm_compute; reflexivity).
  destruct (nothing_found_exit unit (cli "n") client argv start _ _ R H eq_refl eq_refl)
    as (E & D & _).
  split; [exact R|]. split; [exact H|]. split; [now rewrite E|exact D].
Defined.

(** [vercel rm --yes bulk ... bulk], 201 times: the warning is printed
    and all 201 deployments are deleted. *)
Lemma volume_warning_is_informational_witness :
  let client := vercelRm ("--yes" :: repeat "bulk" 201) in
  let argv := mkArgv false false true false ("rm" :: repeat "bulk" 201) in
  let run := resolve unit (cli "n") false (repeat "bulk" 201) start in
  let r := mkResolution (Some "me")
                        (repeat (deployment "bulk" "bulk" "bulk.vercel.app") 201) [] in
  reachesResolution unit (cli "n") client argv
  /\ run = (Resolved r, snd run)
  /\ In (OutputWarn only200) (trace (snd (main unit (cli "n") client start)))
  /\ deletionCalls (trace (snd (main unit (cli "n") client start)))
     = repeat (NowRemove (Some "bulk") false) 201.
Proof.
  intros client argv run r.
  assert (R : reachesResolution unit (cli "n") client argv)
    by (repeat split; vm_compute; reflexivity).
  assert (H : run = (Resolved r, snd run)) by (vm_compute; reflexivity).
  destruct (volume_warning_is_informational unit (cli "n") client argv start _ _ R H)
    as (Wn & _ & D).
  split; [exact R|]. split; [exact H|]. split.
  - apply Wn. vm_compute. apply Nat.leb_le. reflexivity.
  - rewrite (D (or_introl eq_refl)). vm_compute. reflexivity.
Defined.

(** [vercel rm --hard abc123 my-app], answered with [Yes] and Enter. *)
Lemma confirmation_decides_witness :
  let answer := typed "Yes" in
  let client := vercelRm ["--hard"; "abc123"; "my-app"] in
  let argv := mkArgv false true false false ["rm"; "abc123"; "my-app"] in
  let run := resolve unit (cli answer) false ["abc123"; "my-app"] start in
  let r := mkResolution (Some "me") [deployment "abc123" "site" "site.vercel.app"]
                        [project "prj_1" "my-app"] in
  reachesResolution unit (cli answer) client argv
  /\ run = (Resolved r, snd run)
  /\ tabulates unit (cli answer) (world (snd run)) (deployments r)
  /\ Js.toLowerCase (Js.trim answer) = "yes"
  /\ deletionCalls (trace (snd (main unit (cli answer) client start)))
     = [NowRemove (Some "abc123") true; RemoveProject (Some "prj_1")].
Proof.
  intros answer client argv run r.
  assert (R : reachesResolution unit (cli answer) client argv)
    by (repeat split; vm_compute; reflexivity).
  assert (H : run = (Resolved r, snd run)) by (vm_compute; reflexivity).
  assert (T : tabulates unit (cli answer) (world (snd run)) (deployments r))
    by (exists ["1d"]; reflexivity).
  assert (Y : Js.toLowerCase (Js.trim answer) = "yes") by (vm_compute; reflexivity).
  destruct (confirmation_decides unit (cli answer) client argv start _ _ R H
              eq_refl eq_refl) as [Drawn _].
  destruct (Drawn T) as [Go _].
  destruct (Go (or_intror Y)) as [_ D].
  split; [exact R|]. split; [exact H|]. split; [exact T|].
  split; [exact Y|exact D].
Defined.

(** The same command answered with [Y] between two pairs of spaces. *)
Lemma confirmation_ignores_surrounding_space_witness :
  let answer := "  Y  " in
  let client := vercelRm ["abc123"; "my-app"] in
  let argv := mkArgv false false false false ["rm"; "abc123"; "my-app"] in
  let run := resolve unit (cli answer) false ["abc123"; "my-app"] start in
  let r := mkResolution (Some "me") [deployment "abc123" "site" "site.vercel.app"]
                        [project "prj_1" "my-app"] in
  reachesResolution unit (cli answer) client argv
  /\ run = (Resolved r, snd run)
  /\ tabulates unit (cli answer) (world (snd run)) (deployments r)
  /\ deletionCalls (trace (snd (main unit (cli answer) client start)))
     = [NowRemove (Some "abc123") false; RemoveProject (Some "prj_1")].
Proof.
  intros answer client argv run r.
  assert (R : reachesResolution unit (cli answer) client argv)
    by (repeat split; vm_compute; reflexivity).
  assert (H : run = (Resolved r, snd run)) by (vm_compute; reflexivity).
  assert (T : tabulates unit (cli answer) (world (snd run)) (deployments r))
    by (exists ["1d"]; reflexivity).
  destruct (confirmation_ignores_surrounding_space unit (cli answer) client argv
              start r (snd run) "  " "Y" "  " eq_refl eq_refl (or_introl eq_refl))
    as [_ E].
  destruct (E R H eq_refl eq_refl T eq_refl) as [_ D].
  split; [exact R|]. split; [exact H|]. split; [exact T|exact D].
Defined.

(** [abc123 nothing flaky] in the account [me]: two deployment lookups
    are rejected with a typed error and kept as values; the project
    lookup of [flaky] is rejected, and the lookups with it. *)
Lemma lookup_failures_are_values_witness :
  let ids := ["abc123"; "nothing"; "flaky"] in
  "me" <> EmptyString
  /\ map asValue (fst (settleAll unit (deploymentLookups unit (flakyCli "n") "me" ids)
                                 start))
     = [Some (deployment "abc123" "site" "site.vercel.app");
        Some notFound; Some notFound]
  /\ fst (settleAll unit (projectByIdOrNameLookups unit (flakyCli "n") ids) start)
     = [Resolved (Some notFound); Resolved (Some notFound); Rejected networkError]
  /\ exists err,
       fst (lookup unit (flakyCli "n") (Some "me") ids start) = Rejected err.
Proof.
  intros ids.
  assert (N : "me" <> EmptyString) by discriminate.
  split; [exact N|]. split; [reflexivity|]. split; [reflexivity|].
  destruct (lookup_failures_are_values unit (flakyCli "n") "me" ids start N)
    as (_ & _ & _ & [Rej _] & _).
  apply Rej. exists networkError. vm_compute. tauto.
Defined.

(** The expansion of [my-app] next to the candidate [abc123]. *)
Lemma safe_expansion_witness :
  let run :=
    expand unit (cli "n") true [deployment "abc123" "site" "site.vercel.app"]
           [project "prj_1" "my-app"] start in
  run
  = (Resolved ([deployment "abc123" "site" "site.vercel.app";
                deployment "d1" "my-app" "my-app-1.vercel.app";
                deployment "d2" "my-app" "my-app-2.vercel.app"], []), snd run)
  /\ trace (snd run) = [GetDeploymentsByProjectId (Some "prj_1") 201 true].
Proof.
  intros run.
  assert (H : run
              = (Resolved ([deployment "abc123" "site" "site.vercel.app";
                            deployment "d1" "my-app" "my-app-1.vercel.app";
                            deployment "d2" "my-app" "my-app-2.vercel.app"], []),
                 snd run)) by (vm_compute; reflexivity).
  split; [exact H|].
  exact (proj1 (safe_expansion unit (cli "n") _ _ _ _ _ _ H)).
Defined.

(** [vercel rm abc123 a/b]. *)
Lemma invalid_identifier_rejected_witness :
  let client := vercelRm ["abc123"; "a/b"] in
  let argv := mkArgv false false false false ["rm"; "abc123"; "a/b"] in
  find (fun n => negb (isValidName (cli "n") n)) (tl (positional argv))
  = Some "a/b"
  /\ main unit (cli "n") client start
     = (Resolved 1,
        {| world := tt; trace := [OutputError (invalidArgument "a/b")] |}).
Proof.
  intros client argv.
  assert (F : find (fun n => negb (isValidName (cli "n") n))
                   (tl (positional argv)) = Some "a/b") by reflexivity.
  assert (Hh : hd_error (tl (positional argv)) <> Some "help") by discriminate.
  assert (Ne : "a/b" <> EmptyString) by discriminate.
  split; [exact F|].
  exact (proj1 (invalid_identifier_rejected unit (cli "n") client argv start "a/b"
                  eq_refl eq_refl Hh F Ne)).
Defined.

(** ** Where the specification and the command differ *)

(** C2. A project lookup that is rejected is not kept as a value: with
    [vercel rm abc123 flaky] the lookup for [flaky] is rejected, the batch
    is rejected with it and [main] ends with that error, although the
    lookups of [abc123] succeeded. *)
Lemma rejected_project_lookup_aborts :
  let ids := ["abc123"; "flaky"] in
  fst (settleAll unit (projectByIdOrNameLookups unit (flakyCli "n") ids) start)
  = [Resolved (Some notFound); Rejected networkError]
  /\ fst (lookup unit (flakyCli "n") (Some "me") ids start) = Rejected networkError
  /\ fst (main unit (flakyCli "n") (vercelRm ids) start) = Rejected networkError.
Proof. repeat split. Qed.

(** C3. Not every matched project is merged: of 202 matched projects, all
    202 are looked up and answer with their two deployments, and the
    deployments of the first 201 only are appended.  So
    [vercel rm --safe --yes my-app ... my-app], 202 times, deletes the
    unaliased deployment [d2] 201 times. *)
Lemma safe_expansion_stops_at_201_projects :
  let ps := repeat (project "prj_1" "my-app") 202 in
  let answer := [deployment "d1" "my-app" "my-app-1.vercel.app";
                 deployment "d2" "my-app" "my-app-2.vercel.app"] in
  fst (settleAll unit (projectLookups unit (cli "n") ps) start)
  = repeat (Resolved answer) 202
  /\ fst (expand unit (cli "n") true [] ps start)
     = Resolved (flat_map (map placeholder) (repeat answer 201), [])
  /\ fst (expand unit (cli "n") true [] ps start)
     <> Resolved (flat_map (map placeholder) (repeat answer 202), [])
  /\ deletionCalls
       (trace (snd (main unit (cli "n")
                         (vercelRm ("--safe" :: "--yes" :: repeat "my-app" 202))
                         start)))
     = repeat (NowRemove (Some "d2") false) 201.
Proof.
  intros ps answer.
  assert (E : fst (expand unit (cli "n") true [] ps start)
              = Resolved (flat_map (map placeholder) (repeat answer 201), []))
    by (vm_compute; reflexivity).
  split; [vm_compute; reflexivity|]. split; [exact E|]. split.
  - rewrite E. intros H. injection H as H. apply (f_equal (@length _)) in H.
    vm_compute in H. discriminate H.
  - vm_compute. reflexivity.
Qed.

(** C6. An input other than [y], [Y], [yes] and [YES], also after case
    normalisation, can lead to execution: [ y ] between two spaces is
    trimmed first and accepted. *)
Lemma padded_confirmation_executes :
  let answer := " y " in
  let client := vercelRm ["abc123"; "my-app"] in
  Js.toLowerCase answer <> "y"
  /\ Js.toLowerCase answer <> "yes"
  /\ fst (main unit (cli answer) client start) = Resolved 0
  /\ deletionCalls (trace (snd (main unit (cli answer) client start)))
     = [NowRemove (Some "abc123") false; RemoveProject (Some "prj_1")].
Proof. repeat split; discriminate. Qed.

(** C8. An identifier that fails the validator does not always end the
    command with exit code 1: in [vercel rm help a/b] the identifier [a/b]
    is invalid and the command prints the help and returns 2. *)
Lemma help_precedes_validation :
  let ids := ["help"; "a/b"] in
  In "a/b" ids
  /\ isValidName (cli "n") "a/b" = false
  /\ main unit (cli "n") (vercelRm ids) start
     = (Resolved 2, {| world := tt; trace := [PrintHelp] |})
  /\ fst (main unit (cli "n") (vercelRm ids) start) <> Resolved 1.
Proof.
  repeat split; try discriminate. simpl. auto.
Qed.

(** A remark on C8: the test of line 116 is on the truthiness of the
    identifier found, and the empty string is falsy.  Under a validator
    that rejects the empty name, [vercel rm] with one empty argument goes
    on to the scope and the lookups. *)
Lemma empty_identifier_is_looked_up :
  let client := vercelRm [EmptyString] in
  isValidName (strictCli "n") EmptyString = false
  /\ networkCalls (trace (snd (main unit (strictCli "n") client start)))
     = [GetScope; GetDeployment "me" EmptyString; GetProjectByIdOrName EmptyString].
Proof. split; reflexivity. Qed.

(** ** The further properties on the scenarios *)

(** The lookups of [abc123 flaky], of which one is rejected. *)
Lemma lookup_requests_are_positional_witness :
  "me" <> EmptyString
  /\ trace (snd (lookup unit (flakyCli "n") (Some "me") ["abc123"; "flaky"] start))
     = [GetDeployment "me" "abc123"; GetDeployment "me" "flaky";
        GetProjectByIdOrName "abc123"; GetProjectByIdOrName "flaky"].
Proof.
  assert (N : "me" <> EmptyString) by discriminate.
  split; [exact N|].
  exact (lookup_requests_are_positional unit (flakyCli "n") "me"
           ["abc123"; "flaky"] start N).
Defined.

(** [vercel rm abc123] in a scope without context name. *)
Lemma missing_context_aborts_before_lookup_witness :
  let client := vercelRm ["abc123"] in
  let argv := mkArgv false false false false ["rm"; "abc123"] in
  reachesResolution unit (lostCli "n") client argv
  /\ main unit (lostCli "n") client start
     = (Rejected contextNameError,
        {| world := tt;
           trace := [GetScope; Spinner ["abc123"] None; StopSpinner] |}).
Proof.
  intros client argv.
  assert (R : reachesResolution unit (lostCli "n") client argv)
    by (repeat split; vm_compute; reflexivity).
  split; [exact R|].
  exact (missing_context_aborts_before_lookup unit (lostCli "n") client argv start
           None tt R eq_refl eq_refl).
Defined.

(** The resolution of [abc123 flaky], which is rejected. *)
Lemma spinner_is_always_stopped_witness :
  getScope (flakyCli "n") (world start) = (Resolved (Some "me"), tt)
  /\ fst (resolve unit (flakyCli "n") false ["abc123"; "flaky"] start)
     = Rejected networkError
  /\ exists requests,
       trace (snd (resolve unit (flakyCli "n") false ["abc123"; "flaky"] start))
       = trace start ++ [GetScope; Spinner ["abc123"; "flaky"] (Some "me")]
         ++ requests ++ [StopSpinner]
       /\ Forall (fun e => isNetworkCall e = true) requests.
Proof.
  split; [reflexivity|]. split; [reflexivity|].
  exact (spinner_is_always_stopped unit (flakyCli "n") false ["abc123"; "flaky"]
           start (Some "me") tt eq_refl).
Defined.

(** [vercel rm --yes abc123 my-app]. *)
Lemma exit_code_meaning_witness :
  let client := vercelRm ["--yes"; "abc123"; "my-app"] in
  let run := main unit (cli "n") client start in
  run = (Resolved 0, snd run)
  /\ exists argv r s1 before,
       reachesResolution unit (cli "n") client argv
       /\ resolve unit (cli "n") (flagSafe argv) (tl (positional argv)) start
          = (Resolved r, s1)
       /\ nothingFound r = false
       /\ consents unit (cli "n") argv r s1
       /\ forallb notDeletion before = true
       /\ trace (snd run)
          = trace start ++ before
            ++ deletionsOf (flagHard argv) (deployments r) (projects r)
            ++ removalReport (deployments r) (projects r).
Proof.
  intros client run.
  assert (H : run = (Resolved 0, snd run)) by (vm_compute; reflexivity).
  split; [exact H|].
  destruct (exit_code_meaning unit (cli "n") client start 0 (snd run) H)
    as [(N & _)|[(N & _)|(_ & X)]]; [discriminate N|discriminate N|exact X].
Defined.

(** [abc123 d1] without safe mode: [d1] stays, with its alias. *)
Lemma aliases_are_attached_without_safe_witness :
  let run := resolve unit (cli "n") false ["abc123"; "d1"] start in
  let r := {| contextName := Some "me";
              deployments :=
                [deployment "abc123" "site" "site.vercel.app";
                 setAliases [mkAlias "www.example.com"]
                            (deployment "d1" "my-app" "my-app-1.vercel.app")];
              projects := [] |} in
  run = (Resolved r, snd run)
  /\ exists ctx w s2 candidates ps aliasLists,
       getScope (cli "n") (world start) = (Resolved ctx, w)
       /\ findCandidates unit (cli "n") false ctx ["abc123"; "d1"]
            (scoped unit start ["abc123"; "d1"] ctx w)
          = (Resolved ((candidates, ps), aliasLists), s2)
       /\ length aliasLists = length candidates
       /\ deployments r
          = map (fun ca => setAliases (snd ca) (fst ca))
                (combine candidates aliasLists)
       /\ length (deployments r) = length candidates.
Proof.
  intros run r.
  assert (H : run = (Resolved r, snd run)) by (vm_compute; reflexivity).
  split; [exact H|].
  exact (aliases_are_attached_without_safe unit (cli "n") _ _ _ _ H).
Defined.

(** [vercel rm --safe --yes my-app]. *)
Lemma safe_mode_never_removes_a_project_witness :
  let client := vercelRm ["--safe"; "--yes"; "my-app"] in
  let argv := mkArgv false false true true ["rm"; "my-app"] in
  let es := trace (snd (main unit (cli "n") client start)) in
  getArgs (cli "n") (skipn 2 (clientArgv client)) = Some argv
  /\ deletionCalls es = [NowRemove (Some "d2") false]
  /\ ~ In (RemoveProject (Some "prj_1")) es.
Proof.
  intros client argv es.
  split; [reflexivity|]. split; [reflexivity|].
  exact (safe_mode_never_removes_a_project unit (cli "n") client argv start es
           (Some "prj_1") eq_refl eq_refl eq_refl).
Defined.

(** [vercel rm --safe my-app], answered with [y]. *)
Lemma safe_mode_confirms_without_alias_warning_witness :
  let client := vercelRm ["--safe"; "my-app"] in
  let argv := mkArgv false false false true ["rm"; "my-app"] in
  let es := trace (snd (main unit (cli "y") client start)) in
  getArgs (cli "y") (skipn 2 (clientArgv client)) = Some argv
  /\ In AreYouSure es
  /\ ~ In (WarnAlias "www.example.com" (Some "my-app-1.vercel.app")) es.
Proof.
  intros client argv es.
  split; [reflexivity|]. split; [vm_compute; tauto|].
  exact (safe_mode_confirms_without_alias_warning unit (cli "y") client argv start es
           _ _ eq_refl eq_refl eq_refl).
Defined.

(** [vercel rm --yes abc123 my-app]. *)
Lemma yes_skips_the_confirmation_witness :
  let client := vercelRm ["--yes"; "abc123"; "my-app"] in
  let argv := mkArgv false false true false ["rm"; "abc123"; "my-app"] in
  let es := trace (snd (main unit (cli "n") client start)) in
  getArgs (cli "n") (skipn 2 (clientArgv client)) = Some argv
  /\ ~ In StdinData es /\ ~ In AreYouSure es.
Proof.
  intros client argv es.
  pose proof (yes_skips_the_confirmation unit (cli "n") client argv start es
                eq_refl eq_refl eq_refl) as F.
  split; [reflexivity|].
  split; intros Hin; exact (proj1 (Forall_forall _ _) F _ Hin).
Defined.

(** [vercel rm abc123 my-app], declined. *)
Lemma lookups_are_for_requested_identifiers_witness :
  let client := vercelRm ["abc123"; "my-app"] in
  let argv := mkArgv false false false false ["rm"; "abc123"; "my-app"] in
  let es := trace (snd (main unit (cli "n") client start)) in
  getArgs (cli "n") (skipn 2 (clientArgv client)) = Some argv
  /\ In (GetProjectByIdOrName "my-app") es
  /\ In "my-app" (tl (positional argv)).
Proof.
  intros client argv es.
  assert (I : In (GetProjectByIdOrName "my-app") es) by (vm_compute; tauto).
  split; [reflexivity|]. split; [exact I|].
  exact (lookups_are_for_requested_identifiers unit (cli "n") client argv start es
           "my-app" eq_refl eq_refl (or_intror I)).
Defined.

(** [vercel rm --safe my-app], declined. *)
Lemma project_listings_are_for_safe_mode_witness :
  let client := vercelRm ["--safe"; "my-app"] in
  let argv := mkArgv false false false true ["rm"; "my-app"] in
  let es := trace (snd (main unit (cli "n") client start)) in
  getArgs (cli "n") (skipn 2 (clientArgv client)) = Some argv
  /\ In (GetDeploymentsByProjectId (Some "prj_1") 201 true) es
  /\ flagSafe argv = true.
Proof.
  intros client argv es.
  assert (I : In (GetDeploymentsByProjectId (Some "prj_1") 201 true) es)
    by (vm_compute; tauto).
  split; [reflexivity|]. split; [exact I|].
  exact (proj1 (project_listings_are_for_safe_mode unit (cli "n") client argv start es
                  _ _ _ eq_refl eq_refl I)).
Defined.

(** [vercel rm] without identifier. *)
Lemma argument_checks_are_offline_witness :
  let client := vercelRm [] in
  (forall argv, ~ reachesResolution unit (cli "n") client argv)
  /\ exists n es,
       main unit (cli "n") client start
       = (Resolved n, {| world := world start; trace := trace start ++ es |})
       /\ (n = 1 \/ n = 2)
       /\ Forall argumentEvent es
       /\ networkCalls (trace start ++ es) = networkCalls (trace start).
Proof.
  intros client.
  assert (N : forall argv, ~ reachesResolution unit (cli "n") client argv).
  { intros argv (Ha & _ & _ & Hl & _). vm_compute in Ha. injection Ha as <-.
    discriminate Hl. }
  split; [exact N|].
  exact (argument_checks_are_offline unit (cli "n") client start N).
Defined.

(** [vercel rm abc123 flaky]: the project lookup of [flaky] is the
    culprit. *)
Lemma rejection_has_a_culprit_witness :
  let run := main unit (flakyCli "n") (vercelRm ["abc123"; "flaky"]) start in
  run = (Rejected networkError, snd run)
  /\ networkError <> contextNameError
  /\ (forall n, ms (flakyCli "n") n <> Rejected networkError)
  /\ culprit unit (flakyCli "n") networkError.
Proof.
  intros run.
  assert (H : run = (Rejected networkError, snd run)) by (vm_compute; reflexivity).
  split; [exact H|]. split; [discriminate|]. split.
  - intros [z|]; discriminate.
  - exact (rejection_has_a_culprit unit (flakyCli "n") _ _ _ _ H).
Defined.

(** [vercel rm --yes abc123 my-app]: one deployment and one project. *)
Lemma summary_never_counts_zero_witness :
  let client := vercelRm ["--yes"; "abc123"; "my-app"] in
  let argv := mkArgv false false true false ["rm"; "abc123"; "my-app"] in
  let es := trace (snd (main unit (cli "n") client start)) in
  let ds := [deployment "abc123" "site" "site.vercel.app"] in
  let ps := [project "prj_1" "my-app"] in
  getArgs (cli "n") (skipn 2 (clientArgv client)) = Some argv
  /\ In (Success ds ps) es
  /\ deploymentsAndProjects pluralWord ds ps "and" = "1 deployment and 1 project".
Proof.
  intros client argv es ds ps.
  assert (I : In (Success ds ps) es) by (vm_compute; tauto).
  split; [reflexivity|]. split; [exact I|].
  destruct (summary_never_counts_zero unit (cli "n") pluralWord "and" client argv
              start es ds ps eq_refl eq_refl (or_intror I))
    as [(N & _)|[(N & _)|(_ & _ & E)]]; [discriminate N|discriminate N|].
  rewrite E. reflexivity.
Defined.

(** [abc123 d1 my-app] without safe mode. *)
Lemma final_sets_answer_to_identifiers_witness :
  let ids := ["abc123"; "d1"; "my-app"] in
  let run := resolve unit (cli "n") false ids start in
  let r := {| contextName := Some "me";
              deployments := [deployment "abc123" "site" "site.vercel.app"];
              projects := [project "prj_1" "my-app"] |} in
  run = (Resolved r, snd run)
  /\ Forall (answersTo unit (cli "n") ids) (deployments r)
  /\ Forall (answersTo unit (cli "n") ids) (projects r).
Proof.
  intros ids run r.
  assert (H : run = (Resolved r, snd run)) by (vm_compute; reflexivity).
  split; [exact H|].
  exact (final_sets_answer_to_identifiers unit (cli "n") _ _ _ _ H).
Defined.

(** [vercel rm Error], off line: the error of the rejected deployment
    lookup is kept, answers to its own name, and is listed for removal;
    it has no [createdAt], and the confirmation cannot be drawn. *)
Lemma undrawn_confirmation_rejects_witness :
  let client := vercelRm ["Error"] in
  let argv := mkArgv false false false false ["rm"; "Error"] in
  let run := resolve unit (offlineCli "y") false ["Error"] start in
  let r := mkResolution (Some "me") [networkError] [] in
  reachesResolution unit (offlineCli "y") client argv
  /\ run = (Resolved r, snd run)
  /\ fst (main unit (offlineCli "y") client start) = Rejected msError
  /\ ~ In StdinData (trace (snd (main unit (offlineCli "y") client start)))
  /\ deletionCalls (trace (snd (main unit (offlineCli "y") client start))) = [].
Proof.
  intros client argv run r.
  assert (R : reachesResolution unit (offlineCli "y") client argv)
    by (repeat split; vm_compute; reflexivity).
  assert (H : run = (Resolved r, snd run)) by (vm_compute; reflexivity).
  destruct (undrawn_confirmation_rejects unit (offlineCli "y") client argv start r
              (snd run) networkError msError R H eq_refl (or_introl eq_refl)
              eq_refl eq_refl) as (err & E & _ & D).
  split; [exact R|]. split; [exact H|]. split; [reflexivity|].
  split; [vm_compute; intuition discriminate|exact D].
Defined.

(** With [--yes] the same command skips the confirmation and goes on to
    ask for the removal of the kept error, which has no id. *)
Lemma kept_error_is_removed_with_yes :
  deletionCalls
    (trace (snd (main unit (offlineCli "n") (vercelRm ["--yes"; "Error"]) start)))
  = [NowRemove None false].
Proof. reflexivity. Qed.
